(* ===== verification/_CoqProject ===== *)
-Q . S2P
Prelude.v
Scan.v
Utf8.v
PyIO.v
PyStr.v
PySlice.v
PyInt.v
PyRe.v
Row.v
Batch.v
BatchStep.v
Program.v
Main.v
