(* ===== verification/Prelude.v ===== *)
(** * A verification development of [src/process_companies.py]

    ** The program

    [src/process_companies.py] converts one MySQL dump into batched
    PostgreSQL [INSERT] files.  Its parts call each other in this order:

    - [process_file] (lines 4-26) opens [u644556995_job.sql], reads it
      with [readlines()] and calls [process_table] twice on the same list
      of lines, first for [Companies] (dump lines 769-1713, prefix
      [companies_seed]) and then for [Questions] (31569-34690,
      [questions_seed]); the second call writes into the file system the
      first one left;
    - [process_table] (lines 28-84) slices [lines[start_line:end_line]],
      builds the header [INSERT INTO <table> (<cols>) VALUES\n] and runs a
      loop whose state is [current_batch] and [part]: each line is
      stripped, skipped if blank, quote-escaped, boolean-rewritten for the
      two known tables, stripped of one trailing [,] or [;], appended, and
      a batch of 50 rows is flushed to a file; after the loop a non-empty
      rest is flushed;
    - [write_batch] (lines 86-92) writes
      [header ++ ",\n".join(rows) ++ ";\n"] to [<prefix>_part<part>.sql];
    - the Python primitives they use: [str.strip], [str.replace],
      [str.endswith], [str.join], slicing, [str(int)], [re.sub] with a
      callable replacement, text-mode [open] with UTF-8 decoding
      ([errors='ignore']) and [readlines], [open(..., 'w')] and
      [f.write] with the locale's encoding;
    - lines 94-95 run [process_file] when the file is the main script.

    ** The development, file by file (in [_CoqProject] order)

    - [Prelude] (this file): Python strings as lists of code points
      ([pystr], [char] = [N]), literals [‹"..."›] in [py_scope], the hint
      databases [py] and [pyrw], the tactics [eval_lits] and
      [decide_closed], the relation [infix_of] with its decision
      procedure, and the list lemmas the components share.
    - [Scan]: the record [Scanner] (a step function and the law that each
      continuation is shorter) is the interface between a left-to-right
      loop and its clients; [scan_fuel] runs it with fuel, [scan] with
      fuel [S (length s)].  [scan_fuel_total], [scan_fuel_mono] and
      [scan_fuel_scan] show the fuel is enough and extra fuel changes
      nothing; clients reason with [scan_unfold] and [scan_ind] only.
    - [Utf8]: CPython's UTF-8 decoder with [errors='ignore'] ([utf8_step],
      a [Scanner] over byte values; [decode_ignore] on [Byte.byte]s) and
      its strict encoder ([encode_char], [utf8_encode]), with the bit
      arithmetic of [N.shiftl], [N.shiftr], [N.land] and [N.lor].
    - [PyIO]: the [world] (files as bytes, the read-only names), the
      error-state monad [io] (stdpp's [MRet]/[MBind], its equivalence
      [≡] with the monad laws and a [Proper] [mbind] for setoid
      rewriting), [py_error], [open_read], universal newlines and
      [readlines], [open_write] ([PermissionError]) and [fwrite]
      ([os.linesep] and the locale's encoding from a [platform] record,
      [UnicodeEncodeError]).
    - [PyStr]: [py_isspace] (CPython's Unicode whitespace), [strip]
      ([lstrip] then [rstrip]), [endswith], [join], and [replace] as a
      [Scanner] (non-overlapping, from the left, empty needle included).
    - [PySlice]: [py_slice] with [PySlice_AdjustIndices] ([slice_bound]).
    - [PyInt]: [str_int] ([str(int)]), its parser [parse_int] and the
      round trip.
    - [PyRe]: [regex] (literals, concatenation, alternation, groups), the
      backtracking matcher [rmatch] listing matches in Python's priority
      order, [match_at], CPython's substitution loop [re_sub] as a
      [Scanner], and the program's [bool_pattern] and [bool_repl];
      [bool_sub] is line 64 / line 70.  [bool_rewrite] is a direct
      structural rewriter used as the reference.
    - [Row]: the loop body up to the [append]: [escape_quotes] (line 58),
      [normalize_bools] (61-70), [strip_terminator] (73-74) and
      [transform_row] (53-74, [None] for [continue]).
    - [Batch]: the loop state [loop_state] ([current_batch], [part] and
      the file system [files : gmap pystr pystr], passed explicitly),
      [loop_body] (52-81), [flush] (83-84), [run_batches] (44-84),
      [make_insert_header] (48-50), [process_table] (28-84) and
      [write_batch] (86-92).  The abstract specification is [chunks]
      (the rows cut into batches of [max 1 batch_size] from the left, a
      [Scanner] instance) written as parts [1, 2, ...] by [write_parts].
    - [BatchStep]: the [for] loop of lines 52-81 as a transition system:
      [loop_step] is one iteration (the next line and [loop_body]),
      [reachable] its closure from the state of lines 45-46, and
      [loop_inv] the invariant every reachable state satisfies.
    - [Program]: the text-level run: [process_tables] (the two calls of
      [process_table]) and [process_file] on a file system of texts,
      returning [inl FileNotFoundError] or [inr] the final files.
    - [Main]: the same program on the [world] in [io]: [write_batch_io]
      (the [with open] block and its three writes), [loop_body_io],
      [loop_io], [flush_io], [run_batches_io], [process_table_io],
      [process_file_io] and [main] (the [__main__] guard).  The
      specification of the effects is [write_parts_io].

    ** What the theorems show

    - Refinement of the batching loop ([Batch.run_batches_refines]): the
      loop writes exactly [write_parts 1 (chunks ...)] of the transformed
      rows; hence no row is lost, duplicated or reordered, every part but
      the last has [max 1 batch_size] rows and the last between 1 and
      that many ([run_batches_batches]), and exactly
      [ceil (rows / max 1 batch_size)] files are written
      ([run_batches_files]).
    - End to end: [process_table_spec] and [process_file_spec] give the
      contents of every part file and show no other file changes;
      whatever the dump holds, at most 19 [Companies] and 63 [Questions]
      part files are written ([process_file_part_count]).
    - The loop as a transition system ([BatchStep]): every reachable state
      has written exactly the full batches of the rows read so far, with
      fewer than a batch pending ([reachable_loop_inv], by rule
      induction); the end of the input is reached, uniquely, and the
      final flush from it is [run_batches] ([loop_reaches_end]).
    - Boolean rewriting: [re.sub] with the program's pattern equals the
      direct rewriter ([bool_sub_rewrite]); lines without a marker are
      unchanged ([bool_sub_id]).
    - Rows: blank lines are exactly the skipped ones
      ([transform_row_None_iff]); one terminator is dropped
      ([strip_terminator_drop]); rows whose backslashes are all quote
      escapes come out without a backslash ([transform_row_no_backslash])
      and escaping is idempotent on them ([escape_quotes_idem]).
    - Finding: for every prefix without [\'], a MySQL escaped backslash
      before a closing quote becomes [\''], an unterminated literal
      ([escape_quotes_escaped_backslash]).
    - Decoding ([Utf8]): the decoded text holds only Unicode scalar
      values ([utf8_decode_scalar]); decoding undoes encoding
      ([utf8_decode_encode]); an invalid byte before an ASCII byte is
      dropped silently ([utf8_decode_drops_byte]).
    - Effects ([Main]): the effectful loop is equivalent to writing the
      chunks in order on every world ([run_batches_io_refines]); on a
      POSIX system with a UTF-8 locale and writable part files the run
      raises nothing and leaves the files of the text-level model,
      encoded ([process_file_io_refines]); an unwritable [Questions] part
      stops the run with the [Companies] parts and the earlier
      [Questions] parts on disk ([process_file_io_permission]); a Latin-1
      locale that cannot encode a row raises [UnicodeEncodeError] after
      the header is written, on any platform
      ([write_batch_io_encode_error]).
    - Primitives: [str(int)] prints the canonical decimal literal and
      reads back ([parse_int_str_int]), which makes the part names
      distinct ([Batch.part_filename_inj]); [readlines] is characterised
      as the unique cut of the translated text into newline-terminated
      lines ([readlines_spec], [readlines_shape]); slice length bounds.

    ** Fuel and bounds

    Each [Scanner] step consumes at least one element, so fuel
    [S (length s)] always suffices ([Scan.scan_fuel_total]) and more fuel
    gives the same result ([Scan.scan_fuel_mono]).  [str(int)] uses fuel
    [S (N.size n)]: [n < 2 ^ size n <= 10 ^ size n] ([PyInt.str_N_fuel]).
    Python integers are unbounded: [part], the line numbers and the batch
    size are [Z], and the batch size of the loop is kept general
    ([run_batches] takes it; [process_table] passes 50 as line 44 does).

    ** Not modelled

    Other operating-system failures of [open] or [write] (a full disk,
    an unreadable dump) are not told apart: a name that cannot be opened
    for writing is the one failure modelled, and a read succeeds when the
    file exists.  The [platform] fixes [os.linesep] and the locale's
    encoder; the end-to-end theorems take POSIX with UTF-8
    ([posix_utf8]) and the encoding failure is stated for any platform.  The buffering of [TextIOWrapper] is not
    modelled: the [with] block flushes it on close, also on an exception,
    so the files on disk are those of writing at each [f.write].

    ** Further work

    A declarative matching relation for [regex] with the soundness and
    completeness of [rmatch]; [strip] against CPython's index loop;
    [join] and [batch_contents] read back into rows.
*)

From stdpp Require Export base list gmap strings.
From Stdlib Require Export ZArith Lia.
From Stdlib Require Ascii String.

(** ** Python strings *)

(** A Python [str] is a sequence of Unicode code points. *)
Abbreviation char := N.
Abbreviation pystr := (list N).

(** A string literal of the source, written with Rocq's 8-bit literals
    (every literal of the program is ASCII). *)
Definition lit (s : String.string) : pystr :=
  map Ascii.N_of_ascii (String.list_ascii_of_string s).

Definition LF : char := 10%N.        (* "\n" *)
Definition DQUOTE : char := 34%N.    (* double quote *)
Definition QUOTE : char := 39%N.     (* the character ' *)
Definition BACKSLASH : char := 92%N. (* the character \ *)

(** A Python literal such as ['"id"'], a name in double quotes. *)
Definition dq (s : String.string) : pystr := [DQUOTE] ++ lit s ++ [DQUOTE].

Declare Scope py_scope.
Delimit Scope py_scope with py.
Notation "‹ s ›" := (lit s) (format "‹ s ›") : py_scope.
Open Scope py_scope.

(** ** Automation *)

Create HintDb py.
Create Rewrite HintDb pyrw.

Ltac py_simpl := repeat (autorewrite with pyrw in *; simpl in *).

(** Replace every closed literal [lit "..."] of the goal by its code
    points, so that [simpl] and [case_decide] see the characters. *)
Ltac eval_lits :=
  repeat match goal with
  | |- context [lit ?s] =>
      let v := eval vm_compute in (lit s) in change (lit s) with v
  end.

(** Close a decidable goal without free variables by evaluation. *)
Ltac decide_closed := apply (bool_decide_unpack _); vm_compute; exact I.

(** ** Generic lemmas on lists *)

Lemma app_inv_same_length {A} (l1 l2 r1 r2 : list A) :
  length l1 = length l2 -> l1 ++ r1 = l2 ++ r2 -> l1 = l2 /\ r1 = r2.
Proof.
  revert l2. induction l1 as [|x l1 IH]; intros [|y l2] Hlen Heq;
    simpl in *; try lia; [done|].
  injection Heq as -> Heq. destruct (IH l2) as [-> ->]; auto.
Qed.

Lemma lookup_app_mid {A} (l m r : list A) i :
  (l ++ m ++ r) !! (length l + i) = (m ++ r) !! i.
Proof. by rewrite lookup_app_r, Nat.add_sub_swap, Nat.sub_diag by lia. Qed.

Lemma inr_eq_inv {A B} (x y : B) : @inr A B x = inr y -> x = y.
Proof. by intros [= ->]. Qed.

Lemma length_lt_cons {A} (x : A) (l r : list A) :
  length r <= length l -> length r < length (x :: l).
Proof. simpl. lia. Qed.
#[export] Hint Resolve length_lt_cons : core.

Lemma lit_app s1 s2 : lit (String.append s1 s2) = lit s1 ++ lit s2.
Proof.
  induction s1 as [|a s1 IH]; [done|]. simpl. unfold lit in *. simpl. by rewrite IH.
Qed.
#[export] Hint Rewrite lit_app : pyrw.

Example lit_escape : ‹"\'"› = [BACKSLASH; QUOTE].
Proof. reflexivity. Qed.

(** ** Occurrence of a sequence inside another *)

Definition infix {A} (l1 l2 : list A) : Prop := exists k1 k2, l2 = k1 ++ l1 ++ k2.
Infix "`infix_of`" := infix (at level 70) : py_scope.

Lemma infix_cons_r {A} (x : A) (l1 l2 : list A) :
  l1 `infix_of` l2 -> l1 `infix_of` x :: l2.
Proof. intros (k1 & k2 & ->). by exists (x :: k1), k2. Qed.

Lemma prefix_infix {A} (l1 l2 : list A) : l1 `prefix_of` l2 -> l1 `infix_of` l2.
Proof. intros [k ->]. by exists [], k. Qed.

Lemma infix_cons_inv {A} (x : A) (l1 l2 : list A) :
  l1 `infix_of` x :: l2 -> l1 `prefix_of` x :: l2 \/ l1 `infix_of` l2.
Proof.
  intros ([|y k1] & k2 & Heq); simpl in Heq.
  - left. by exists k2.
  - right. injection Heq as -> ->. by exists k1, k2.
Qed.
#[export] Hint Resolve infix_cons_r prefix_infix : py.

Lemma infix_nil_inv {A} (l : list A) : l `infix_of` [] -> l = [].
Proof. intros (k1 & k2 & H). by destruct k1, l. Qed.

#[export] Instance infix_dec {A} `{EqDecision A} (l1 l2 : list A) :
  Decision (l1 `infix_of` l2).
Proof.
  induction l2 as [|x l2 IH].
  - destruct (decide (l1 = [])) as [->|Hn]; [left; by exists [], []|].
    right. intros ?%infix_nil_inv. done.
  - destruct (decide (l1 `prefix_of` x :: l2)) as [Hp|Hp]; [left; by apply prefix_infix|].
    destruct IH as [Hi|Hi]; [left; by apply infix_cons_r|].
    right. intros [?|?]%infix_cons_inv; done.
Defined.
