(* ===== verification/Scan.v ===== *)
(** * Left-to-right scanners

    The loops of CPython's [str.replace] and [re.sub], and the chunking
    of a list into batches, all walk a sequence from the left: at each
    position they emit some output and either stop or continue on a
    strictly shorter rest.  [Scanner] is that interface (a record of the
    step function and its law); [scan_fuel] runs it with fuel and [scan]
    with the fuel [S (length s)], which the theorems below show is always
    enough.  Clients prove their properties with [scan_unfold] and the
    induction principle [scan_ind], never with the fuel. *)

From S2P Require Import Prelude.

Record Scanner (A B : Type) := {
  step : list A -> list B * option (list A);
  step_shorter : forall s o r, step s = (o, Some r) -> length r < length s
}.
Arguments step {A B} _ _.
Arguments step_shorter {A B} _ {_ _ _} _.

Section Run.
Context {A B : Type} (sc : Scanner A B).

Fixpoint scan_fuel (fuel : nat) (s : list A) : option (list B) :=
  match fuel with
  | O => None
  | S f =>
      match step sc s with
      | (o, None) => Some o
      | (o, Some r) => (fun t => o ++ t) <$> scan_fuel f r
      end
  end.

Definition scan (s : list A) : list B :=
  default [] (scan_fuel (S (length s)) s).

(** Fuel larger than the input always produces a result. *)
Lemma scan_fuel_total fuel s :
  length s < fuel -> is_Some (scan_fuel fuel s).
Proof.
  revert s. induction fuel as [|f IH]; intros s Hf; [lia|]. simpl.
  destruct (step sc s) as [o [r|]] eqn:Hs; [|by eexists].
  pose proof (step_shorter sc Hs).
  destruct (IH r) as [t ->]; [lia|]. by eexists.
Qed.

(** Once the scanner produces a result, more fuel does not change it. *)
Lemma scan_fuel_mono fuel fuel' s o :
  scan_fuel fuel s = Some o -> fuel <= fuel' -> scan_fuel fuel' s = Some o.
Proof.
  revert fuel' s o. induction fuel as [|f IH]; intros fuel' s o Hrun Hle;
    [done|].
  destruct fuel' as [|f']; [lia|]. simpl in *.
  destruct (step sc s) as [o1 [r|]]; [|done].
  destruct (scan_fuel f r) as [t|] eqn:Ht; simplify_eq/=.
  by rewrite (IH f' r t Ht ltac:(lia)).
Qed.

Lemma scan_fuel_scan fuel s :
  length s < fuel -> scan_fuel fuel s = Some (scan s).
Proof.
  intros Hf. unfold scan.
  destruct (scan_fuel_total (S (length s)) s) as [o Ho]; [lia|].
  rewrite Ho. simpl. eapply scan_fuel_mono; [done|lia].
Qed.

(** The fixpoint equation of the scanner. *)
Lemma scan_unfold s :
  scan s = match step sc s with
           | (o, None) => o
           | (o, Some r) => o ++ scan r
           end.
Proof.
  assert (Hrun := scan_fuel_scan (S (length s)) s ltac:(lia)). simpl in Hrun.
  destruct (step sc s) as [o [r|]] eqn:Hs; [|congruence].
  rewrite (scan_fuel_scan (length s) r (step_shorter sc Hs)) in Hrun.
  simpl in Hrun. congruence.
Qed.

(** Induction along the steps of the scanner. *)
Lemma scan_ind (P : list A -> list B -> Prop) :
  (forall s, match step sc s with
             | (o, None) => P s o
             | (o, Some r) => P r (scan r) -> P s (o ++ scan r)
             end) ->
  forall s, P s (scan s).
Proof.
  intros Hstep s.
  induction s as [s IH] using (well_founded_induction
    (Wf_nat.well_founded_ltof _ (@length A))).
  specialize (Hstep s). rewrite scan_unfold.
  destruct (step sc s) as [o [r|]] eqn:Hs; [|done].
  apply Hstep, IH. exact (step_shorter sc Hs).
Qed.

End Run.
