(* ===== verification/Utf8.v ===== *)
(** * UTF-8: decoding with [errors='ignore'], strict encoding

    Line 7 opens the dump with [encoding='utf-8', errors='ignore']: the
    bytes are decoded by CPython's UTF-8 decoder ([utf8_decode] of
    [Objects/stringlib/codecs.h], driven by [unicode_decode_utf8] of
    [Objects/unicodeobject.c]), and every ill-formed sequence the decoder
    reports is skipped.  The decoder reports

    - an invalid start byte ([0x80-0xC1], [0xF5-0xFF]): one byte;
    - an invalid continuation byte after a lead byte and [n] valid
      continuation bytes: the [1 + n] bytes before it;
    - an unexpected end of data: the rest of the input.

    [utf8_step] is one iteration of that loop, a [Scanner] over the byte
    values, and [utf8_decode] the whole decoding.  [encode_char] is
    CPython's encoder for one code point ([ucs4lib_utf8_encoder]), which
    fails on a surrogate: the strict encoding of a text file opened for
    writing.  Bytes are [Byte.byte]; the decoder and the encoder work on
    their values as [N]. *)

From S2P Require Import Prelude Scan.

(** ** Byte values *)

Definition byte_of_N (n : N) : Byte.byte := default Byte.x00 (Byte.of_N n).

Definition bytes_of (l : list N) : list Byte.byte := map byte_of_N l.

(** [IS_CONTINUATION_BYTE] *)
Definition is_cont (b : N) : bool := ((0x80 <=? b) && (b <? 0xC0))%N.

(** ** The decoder *)

(** [ch = (ch << 6) + ch2 - ((0xC0 << 6) + 0x80)] and its 3- and 4-byte
    forms. *)
Definition cp2 (b0 b1 : N) : char :=
  (N.shiftl b0 6 + b1 - (N.shiftl 0xC0 6 + 0x80))%N.
Definition cp3 (b0 b1 b2 : N) : char :=
  (N.shiftl b0 12 + N.shiftl b1 6 + b2 - (N.shiftl 0xE0 12 + N.shiftl 0x80 6 + 0x80))%N.
Definition cp4 (b0 b1 b2 b3 : N) : char :=
  (N.shiftl b0 18 + N.shiftl b1 12 + N.shiftl b2 6 + b3 -
   (N.shiftl 0xF0 18 + N.shiftl 0x80 12 + N.shiftl 0x80 6 + 0x80))%N.

(** The second byte of a three-byte sequence: a continuation byte, at
    least [0xA0] after [0xE0] (no overlong form) and below [0xA0] after
    [0xED] (no surrogate). *)
Definition bad_second3 (b0 b1 : N) : bool :=
  negb (is_cont b1) || (if (b1 <? 0xA0)%N then (b0 =? 0xE0)%N else (b0 =? 0xED)%N).

(** The second byte of a four-byte sequence: at least [0x90] after
    [0xF0], below [0x90] after [0xF4] (at most [U+10FFFF]). *)
Definition bad_second4 (b0 b1 : N) : bool :=
  negb (is_cont b1) || (if (b1 <? 0x90)%N then (b0 =? 0xF0)%N else (b0 =? 0xF4)%N).

(** One iteration: the decoded character and the rest, or nothing and
    the rest after the skipped bytes ([Some []] when the input ends in
    the middle of a sequence: the rest is dropped). *)
Definition utf8_step (s : list N) : list char * option (list N) :=
  match s with
  | [] => ([], None)
  | b0 :: r =>
      if (b0 <? 0x80)%N then ([b0], Some r)
      else if (b0 <? 0xC2)%N then ([], Some r)
      else if (b0 <? 0xE0)%N then
        match r with
        | [] => ([], Some [])
        | b1 :: r1 => if is_cont b1 then ([cp2 b0 b1], Some r1) else ([], Some r)
        end
      else if (b0 <? 0xF0)%N then
        match r with
        | [] => ([], Some [])
        | [b1] => if bad_second3 b0 b1 then ([], Some r) else ([], Some [])
        | b1 :: b2 :: r2 =>
            if bad_second3 b0 b1 then ([], Some r)
            else if is_cont b2 then ([cp3 b0 b1 b2], Some r2)
            else ([], Some (b2 :: r2))
        end
      else if (b0 <? 0xF5)%N then
        match r with
        | [] => ([], Some [])
        | [b1] => if bad_second4 b0 b1 then ([], Some r) else ([], Some [])
        | [b1; b2] =>
            if bad_second4 b0 b1 then ([], Some r)
            else if is_cont b2 then ([], Some []) else ([], Some [b2])
        | b1 :: b2 :: b3 :: r3 =>
            if bad_second4 b0 b1 then ([], Some r)
            else if negb (is_cont b2) then ([], Some (b2 :: b3 :: r3))
            else if is_cont b3 then ([cp4 b0 b1 b2 b3], Some r3)
            else ([], Some (b3 :: r3))
        end
      else ([], Some r)
  end.

Lemma utf8_step_shorter s o r : utf8_step s = (o, Some r) -> length r < length s.
Proof.
  destruct s as [|b0 r0]; [done|]. unfold utf8_step.
  repeat match goal with
  | |- context [if ?c then _ else _] => destruct c
  | |- context [match ?l with _ => _ end] => destruct l
  end; intros [= _ <-]; simpl; lia.
Qed.

Definition utf8_scanner : Scanner N char :=
  {| step := utf8_step; step_shorter := utf8_step_shorter |}.

Definition utf8_decode (s : list N) : pystr := scan utf8_scanner s.

(** [bytes.decode('utf-8', 'ignore')] *)
Definition decode_ignore (bs : list Byte.byte) : pystr := utf8_decode (map Byte.to_N bs).

(** ** The encoder *)

Definition is_surrogate (c : char) : bool := ((0xD800 <=? c) && (c <=? 0xDFFF))%N.

(** A Unicode scalar value: what a Python string decoded from bytes holds. *)
Definition is_scalar (c : char) : bool := negb (is_surrogate c) && (c <=? 0x10FFFF)%N.

(** One code point; [None] is the [UnicodeEncodeError] of a surrogate. *)
Definition encode_char (ch : char) : option (list N) :=
  if (ch <? 0x80)%N then Some [ch]
  else if (ch <? 0x0800)%N then
    Some [N.lor 0xC0 (N.shiftr ch 6); N.lor 0x80 (N.land ch 0x3F)]
  else if is_surrogate ch then None
  else if (ch <? 0x10000)%N then
    Some [N.lor 0xE0 (N.shiftr ch 12); N.lor 0x80 (N.land (N.shiftr ch 6) 0x3F);
          N.lor 0x80 (N.land ch 0x3F)]
  else
    Some [N.lor 0xF0 (N.shiftr ch 18); N.lor 0x80 (N.land (N.shiftr ch 12) 0x3F);
          N.lor 0x80 (N.land (N.shiftr ch 6) 0x3F); N.lor 0x80 (N.land ch 0x3F)].

(** [s.encode('utf-8')] *)
Definition utf8_encode (s : pystr) : option (list N) :=
  match mapM encode_char s with Some bs => Some (concat bs) | None => None end.

(** ** Bit arithmetic of the encoder and the decoder *)

Lemma lor_low a b k : N.land a (N.ones k) = 0%N -> (b < 2 ^ k)%N -> N.lor a b = (a + b)%N.
Proof.
  intros Ha Hb. assert (Hab : N.land a b = 0%N).
  { rewrite <-(N.mod_small b (2 ^ k)) by done. rewrite <-N.land_ones, (N.land_comm b), N.land_assoc, Ha.
    apply N.land_0_l. }
  by rewrite <-N.lxor_lor, <-N.add_nocarry_lxor.
Qed.

Lemma land_3F c : N.land c 0x3F = (c mod 64)%N.
Proof. exact (N.land_ones c 6). Qed.

Lemma shiftr_6 c : N.shiftr c 6 = (c / 64)%N.
Proof. exact (N.shiftr_div_pow2 c 6). Qed.

Lemma shiftr_12 c : N.shiftr c 12 = (c / 64 / 64)%N.
Proof. rewrite N.shiftr_div_pow2, N.Div0.div_div. reflexivity. Qed.

Lemma shiftr_18 c : N.shiftr c 18 = (c / 64 / 64 / 64)%N.
Proof. rewrite N.shiftr_div_pow2, !N.Div0.div_div. reflexivity. Qed.

Lemma cp2_eq b0 b1 : cp2 b0 b1 = (b0 * 64 + b1 - 12416)%N.
Proof. unfold cp2. rewrite !N.shiftl_mul_pow2. reflexivity. Qed.

Lemma cp3_eq b0 b1 b2 : cp3 b0 b1 b2 = (b0 * 4096 + b1 * 64 + b2 - 925824)%N.
Proof. unfold cp3. rewrite !N.shiftl_mul_pow2. reflexivity. Qed.

Lemma cp4_eq b0 b1 b2 b3 :
  cp4 b0 b1 b2 b3 = (b0 * 262144 + b1 * 4096 + b2 * 64 + b3 - 63447168)%N.
Proof. unfold cp4. rewrite !N.shiftl_mul_pow2. reflexivity. Qed.

(** [0x80 | x], [0xC0 | x], [0xE0 | x], [0xF0 | x] below the tag bits. *)
Lemma lor_80 x : (x < 64)%N -> N.lor 0x80 x = (128 + x)%N.
Proof. intros. apply (lor_low _ _ 6); [reflexivity|done]. Qed.
Lemma lor_C0 x : (x < 32)%N -> N.lor 0xC0 x = (192 + x)%N.
Proof. intros. apply (lor_low _ _ 5); [reflexivity|done]. Qed.
Lemma lor_E0 x : (x < 16)%N -> N.lor 0xE0 x = (224 + x)%N.
Proof. intros. apply (lor_low _ _ 4); [reflexivity|done]. Qed.
Lemma lor_F0 x : (x < 8)%N -> N.lor 0xF0 x = (240 + x)%N.
Proof. intros. apply (lor_low _ _ 3); [reflexivity|done]. Qed.

Lemma div_mod_64 c : c = (64 * (c / 64) + c mod 64)%N /\ (c mod 64 < 64)%N.
Proof. split; [apply N.div_mod; discriminate|apply N.mod_lt; discriminate]. Qed.

(** Case analysis on every comparison of byte values in the goal. *)
Ltac ncases :=
  repeat match goal with
  | |- context [(?a <? ?b)%N] => destruct (N.ltb_spec a b)
  | |- context [(?a <=? ?b)%N] => destruct (N.leb_spec a b)
  | |- context [(?a =? ?b)%N] => destruct (N.eqb_spec a b)
  end; simpl.

(** ** Decoding undoes encoding *)

Ltac byte_arith :=
  unfold utf8_step, bad_second3, bad_second4, is_cont;
  rewrite ?cp2_eq, ?cp3_eq, ?cp4_eq; ncases; try lia; repeat f_equal; lia.

(** A scalar value is encoded, and one step of the decoder reads it back
    whatever follows. *)
Lemma encode_char_step c :
  is_scalar c = true ->
  exists bs, encode_char c = Some bs /\ Forall (fun b => b < 256)%N bs /\
    forall rest, utf8_step (bs ++ rest) = ([c], Some rest).
Proof.
  unfold is_scalar, is_surrogate. intros [Hs Hmax%N.leb_le]%andb_true_iff.
  assert (Hns : (c < 0xD800 \/ 0xDFFF < c)%N)
    by (destruct (N.leb_spec 0xD800 c), (N.leb_spec c 0xDFFF); simpl in Hs; done || lia).
  clear Hs. unfold encode_char, is_surrogate. rewrite ?shiftr_18, ?shiftr_12, ?shiftr_6, ?land_3F.
  destruct (div_mod_64 c) as [E0 R0]. destruct (div_mod_64 (c / 64)) as [E1 R1].
  destruct (div_mod_64 (c / 64 / 64)) as [E2 R2].
  set (d3 := (c / 64 / 64 / 64)%N) in *. set (r2 := (c / 64 / 64 mod 64)%N) in *.
  set (d2 := (c / 64 / 64)%N) in *. set (r1 := (c / 64 mod 64)%N) in *.
  set (d1 := (c / 64)%N) in *. set (r0 := (c mod 64)%N) in *.
  clearbody d3 r2 d2 r1 d1 r0.
  ncases; try (exfalso; lia);
    rewrite ?lor_C0, ?lor_E0, ?lor_F0, ?lor_80 by lia;
    eexists; (split; [reflexivity|]);
    (split; [repeat constructor; lia|]); intros rest; simpl; byte_arith.
Qed.

Lemma utf8_encode_decode_app s :
  Forall (fun c => is_scalar c = true) s ->
  exists e, utf8_encode s = Some e /\ Forall (fun b => b < 256)%N e /\
    forall rest, utf8_decode (e ++ rest) = s ++ utf8_decode rest.
Proof.
  unfold utf8_encode. induction 1 as [|c s Hc Hs IH]; [by exists []|].
  destruct (encode_char_step c Hc) as (bs & Hbs & Hb & Hstep).
  destruct IH as (e & He & Hb' & Hdec). simpl. rewrite Hbs.
  destruct (mapM encode_char s) as [es|]; [|done]. injection He as <-.
  eexists; split; [reflexivity|]. simpl. split; [by apply Forall_app|].
  intros rest. unfold utf8_decode. rewrite <-app_assoc, scan_unfold. simpl.
  rewrite Hstep. simpl. f_equal. apply Hdec.
Qed.

(** ** The bytes of the file *)

Lemma byte_of_N_to_N n : (n < 256)%N -> Byte.to_N (byte_of_N n) = n.
Proof.
  intros Hn. unfold byte_of_N. destruct (Byte.of_N n) as [b|] eqn:Hb.
  - by apply Byte.to_of_N.
  - apply Byte.of_N_None_iff in Hb. lia.
Qed.

Lemma map_to_N_bytes_of l : Forall (fun b => b < 256)%N l -> map Byte.to_N (bytes_of l) = l.
Proof.
  induction 1 as [|b l Hb _ IH]; [done|]. simpl. by rewrite byte_of_N_to_N, IH.
Qed.

(** ** What the decoder produces and skips *)

Lemma utf8_step_scalar s o x :
  utf8_step s = (o, x) -> Forall (fun c => is_scalar c = true) o.
Proof.
  destruct s as [|b0 [|b1 [|b2 [|b3 r]]]];
    unfold utf8_step, bad_second3, bad_second4, is_cont; rewrite ?cp2_eq, ?cp3_eq, ?cp4_eq;
    ncases; intros [= <- _]; repeat constructor;
    unfold is_scalar, is_surrogate; ncases; first [done | lia].
Qed.

(** A byte that is not ASCII, followed by an ASCII byte, is skipped on its
    own: whatever sequence it starts is broken by the ASCII byte. *)
Lemma utf8_step_non_ascii b0 a rest :
  (0x80 <= b0)%N -> (a < 0x80)%N -> utf8_step (b0 :: a :: rest) = ([], Some (a :: rest)).
Proof.
  intros H0 Ha. destruct rest as [|b2 [|b3 r]];
    unfold utf8_step, bad_second3, bad_second4, is_cont; ncases; first [done | lia].
Qed.

Lemma utf8_decode_ascii s : Forall (fun b => b < 0x80)%N s -> utf8_decode s = s.
Proof.
  induction 1 as [|b s Hb _ IH]; [done|]. unfold utf8_decode in *.
  rewrite scan_unfold. cbn [step utf8_scanner utf8_step].
  rewrite (proj2 (N.ltb_lt _ _) Hb). simpl. by rewrite IH.
Qed.

Lemma utf8_decode_all_scalar s : Forall (fun c => is_scalar c = true) (utf8_decode s).
Proof.
  unfold utf8_decode.
  apply (scan_ind utf8_scanner (fun _ o => Forall (fun c => is_scalar c = true) o)).
  intros s'. cbn [step utf8_scanner].
  destruct (utf8_step s') as [o [r|]] eqn:Hs.
  - intros Hr. apply Forall_app_2; [exact (utf8_step_scalar _ _ _ Hs)|done].
  - exact (utf8_step_scalar _ _ _ Hs).
Qed.

(** C20: Decoding with [errors='ignore'] yields a Python string: every
    character is a Unicode scalar value (at most [U+10FFFF], no
    surrogate), whatever the bytes. *)
Theorem utf8_decode_scalar s : Forall (fun c => is_scalar c = true) (utf8_decode s).
Proof. apply utf8_decode_all_scalar. Qed.

(** C21: A string of scalar values is encoded without error, into bytes,
    and decoding the bytes gives the string back. *)
Theorem utf8_decode_encode s :
  Forall (fun c => is_scalar c = true) s ->
  exists e, utf8_encode s = Some e /\ decode_ignore (bytes_of e) = s.
Proof.
  intros Hs. destruct (utf8_encode_decode_app s Hs) as (e & He & Hb & Hdec).
  exists e. split; [done|]. unfold decode_ignore. rewrite map_to_N_bytes_of by done.
  rewrite <-(app_nil_r e), Hdec. unfold utf8_decode. rewrite scan_unfold. apply app_nil_r.
Qed.

(** C22: [errors='ignore'] loses data silently: a byte that is not ASCII
    and is followed by an ASCII byte (a Latin-1 [é] before a quote, say)
    disappears, and decoding goes on from the ASCII byte. *)
Theorem utf8_decode_drops_byte b0 a rest :
  (0x80 <= b0)%N -> (a < 0x80)%N -> utf8_decode (b0 :: a :: rest) = utf8_decode (a :: rest).
Proof.
  intros H0 Ha. unfold utf8_decode at 1. rewrite scan_unfold. cbn [step utf8_scanner].
  by rewrite utf8_step_non_ascii.
Qed.

(** A Latin-1 dump: ['café', 1] loses its [é]. *)
Example decode_ignore_latin1 :
  decode_ignore (bytes_of [0x27; 0x63; 0x61; 0x66; 0xE9; 0x27; 0x2C; 0x20; 0x31]%N) =
    ‹"'caf', 1"›.
Proof. vm_compute. reflexivity. Qed.

(** ** Witnesses *)

Lemma utf8_decode_encode_witness :
  Forall (fun c => is_scalar c = true) [0x41; 0xE9; 0x2192; 0x1F600]%N /\
  exists e, utf8_encode [0x41; 0xE9; 0x2192; 0x1F600]%N = Some e /\
    decode_ignore (bytes_of e) = [0x41; 0xE9; 0x2192; 0x1F600]%N.
Proof.
  assert (H : Forall (fun c => is_scalar c = true) [0x41; 0xE9; 0x2192; 0x1F600]%N)
    by (repeat constructor).
  split; [exact H|]. exact (utf8_decode_encode _ H).
Defined.

Lemma utf8_decode_drops_byte_witness :
  (0x80 <= 0xE9)%N /\ (0x27 < 0x80)%N /\
  utf8_decode [0xE9; 0x27; 0x2C]%N = utf8_decode [0x27; 0x2C]%N.
Proof.
  assert (H1 : (0x80 <= 0xE9)%N) by lia. assert (H2 : (0x27 < 0x80)%N) by lia.
  split; [exact H1|split; [exact H2|]]. exact (utf8_decode_drops_byte _ _ _ H1 H2).
Defined.

Lemma utf8_encode_app a b ea eb :
  utf8_encode a = Some ea -> utf8_encode b = Some eb -> utf8_encode (a ++ b) = Some (ea ++ eb).
Proof.
  unfold utf8_encode. revert ea. induction a as [|c a IH]; intros ea Ha Hb; simpl in *.
  - injection Ha as <-. by destruct (mapM encode_char b); simplify_eq.
  - destruct (encode_char c) as [bc|]; [|done]. simpl in *.
    destruct (mapM encode_char a) as [es|] eqn:Hes; [|done]. simpl in Ha. injection Ha as <-.
    specialize (IH (concat es) eq_refl Hb).
    destruct (mapM encode_char (a ++ b)); [|done]. simpl. injection IH as ->.
    by rewrite app_assoc.
Qed.
