(* ===== verification/PyIO.v ===== *)
(** * Files: the world, text-mode reading and writing

    The program touches the file system through [open] in text mode
    only: line 7 reads the dump with [encoding='utf-8',
    errors='ignore'] and [readlines()], line 88 opens each part file with
    ['w'] and the three [f.write] calls of lines 89-92 write to it.

    The [world] holds the files as bytes and the names that cannot be
    opened for writing.  A computation is an [io]: a function from the
    world to a result ([inl] a Python exception, [inr] a value) and the
    world after it; an exception keeps the world as it stands when it is
    raised, as the files written before it stay on disk.  [io] is a monad
    (stdpp's [MRet] and [MBind], [x ← m; k] and [m ;; k]) with its
    equivalence [≡] (same result and world from every world), under
    which the monad laws hold and [mbind] is [Proper].

    Reading is [open_read] and [readlines] ([TextIOWrapper] with
    universal newlines).  Writing follows [TextIOWrapper]: [open_write]
    truncates the file (or raises [PermissionError]); [fwrite]
    translates ["\n"] to [os.linesep] and encodes with the locale's
    encoding, raising [UnicodeEncodeError] before anything is written
    when it fails.  The buffer of the file object is flushed when the
    [with] block closes the file, also on an exception, so appending at
    each [fwrite] gives the same files.  The [platform] record gives
    [os.linesep] and the locale's encoder: [posix_utf8] for a POSIX
    system with a UTF-8 locale, [latin1_platform] for one whose locale
    encoding is ISO-8859-1. *)

From S2P Require Import Prelude Scan Utf8.

(** ** Exceptions, the world and the monad *)

Inductive py_error :=
  | FileNotFoundError (path : pystr)
  | PermissionError (path : pystr)
  | UnicodeEncodeError.

#[export] Instance py_error_eq_dec : EqDecision py_error.
Proof. solve_decision. Defined.

Record world := {
  fs : gmap pystr (list Byte.byte);
  readonly : gset pystr
}.

Definition io (A : Type) : Type := world -> (py_error + A) * world.

#[export] Instance io_ret : MRet io := fun A x w => (inr x, w).
#[export] Instance io_bind : MBind io := fun A B f m w =>
  match m w with
  | (inl e, w') => (inl e, w')
  | (inr x, w') => f x w'
  end.

Definition raise {A} (e : py_error) : io A := fun w => (inl e, w).

#[export] Instance io_equiv {A} : Equiv (io A) := fun m1 m2 => forall w, m1 w = m2 w.

#[export] Instance io_equiv_equivalence {A} : Equivalence (≡@{io A}).
Proof.
  split; [by intros m w|by intros m1 m2 H w|].
  intros m1 m2 m3 H12 H23 w. by rewrite H12, H23.
Qed.

#[export] Instance io_bind_proper {A B} :
  Proper (pointwise_relation A (≡) ==> (≡) ==> (≡)) (@mbind io _ A B).
Proof.
  intros f g Hfg m1 m2 Hm w. unfold mbind, io_bind. rewrite Hm.
  destruct (m2 w) as [[e|x] w']; [done|apply Hfg].
Qed.

Lemma io_bind_ret_l {A B} (x : A) (f : A -> io B) : (mret x ≫= f) ≡ f x.
Proof. by intros w. Qed.

Lemma io_bind_ret_r {A} (m : io A) : (m ≫= mret) ≡ m.
Proof. intros w. unfold mbind, io_bind. by destruct (m w) as [[e|x] w']. Qed.

Lemma io_bind_assoc {A B C} (m : io A) (f : A -> io B) (g : B -> io C) :
  ((m ≫= f) ≫= g) ≡ (m ≫= fun x => f x ≫= g).
Proof. intros w. unfold mbind, io_bind. by destruct (m w) as [[e|x] w']. Qed.

Lemma io_bind_raise {A B} (e : py_error) (f : A -> io B) : (raise e ≫= f) ≡ raise e.
Proof. by intros w. Qed.

(** Running a bind on a world where the first computation succeeds. *)
Lemma io_bind_run {A B} (m : io A) (f : A -> io B) w x w' :
  m w = (inr x, w') -> (m ≫= f) w = f x w'.
Proof. intros Hm. unfold mbind, io_bind. by rewrite Hm. Qed.

Lemma io_bind_run_err {A B} (m : io A) (f : A -> io B) w e w' :
  m w = (inl e, w') -> (m ≫= f) w = (inl e, w').
Proof. intros Hm. unfold mbind, io_bind. by rewrite Hm. Qed.

(** ** Reading: [open(name, 'r', encoding='utf-8', errors='ignore')] *)

Definition open_read (name : pystr) : io (list Byte.byte) := fun w =>
  match fs w !! name with
  | None => (inl (FileNotFoundError name), w)
  | Some bs => (inr bs, w)
  end.

Definition CR : char := 13%N.

(** Universal newlines of text mode: [\r\n] and a lone [\r] become [\n]. *)
Fixpoint translate_newlines (s : pystr) : pystr :=
  match s with
  | [] => []
  | c :: r =>
      if decide (c = CR) then
        match r with
        | c' :: r' => if decide (c' = LF) then LF :: translate_newlines r'
                      else LF :: translate_newlines r
        | [] => [LF]
        end
      else c :: translate_newlines r
  end.

(** [readlines] on translated text: [cur] is the line read so far. *)
Fixpoint split_lines (s : pystr) (cur : pystr) : list pystr :=
  match s with
  | [] => if decide (cur = []) then [] else [cur]
  | c :: r =>
      if decide (c = LF) then (cur ++ [c]) :: split_lines r []
      else split_lines r (cur ++ [c])
  end.

Definition readlines (text : pystr) : list pystr := split_lines (translate_newlines text) [].

(** [with open(name, 'r', encoding='utf-8', errors='ignore') as f:
    lines = f.readlines()] *)
Definition read_lines (name : pystr) : io (list pystr) :=
  bs ← open_read name; mret (readlines (decode_ignore bs)).

(** ** Reading: the lines put back together give the text *)

Lemma split_lines_concat s cur : concat (split_lines s cur) = cur ++ s.
Proof.
  revert cur. induction s as [|c s IH]; intros cur; simpl.
  - case_decide; subst; simpl; [done|]. by rewrite !app_nil_r.
  - case_decide; simpl; rewrite IH; by rewrite <-app_assoc.
Qed.

Lemma split_lines_shape s cur :
  (forall i, cur !! i <> Some LF) ->
  Forall (fun l => l <> [] /\ forall i, l !! i = Some LF -> S i = length l) (split_lines s cur).
Proof.
  revert cur. induction s as [|c s IH]; intros cur Hcur; simpl.
  - case_decide; [constructor|]. repeat constructor; [done|].
    intros i Hi. by destruct (Hcur i).
  - case_decide as Hc.
    + constructor; [|apply IH; intros i; done].
      split; [by destruct cur|]. intros i Hi. rewrite length_app. simpl.
      destruct (decide (i < length cur)).
      * rewrite lookup_app_l in Hi by done. by destruct (Hcur i).
      * rewrite lookup_app_r in Hi by lia.
        destruct (i - length cur) eqn:E; [lia|done].
    + apply IH. intros i Hi. destruct (decide (i < length cur)).
      * rewrite lookup_app_l in Hi by done. by apply (Hcur i).
      * rewrite lookup_app_r in Hi by lia.
        destruct (i - length cur); [simpl in Hi; congruence|done].
Qed.


(** ** [readlines] is the cut of the text into lines

    A list of lines is well formed when every line is non-empty, holds a
    newline at most as its last character, and every line but the last
    ends with one.  [readlines] gives the only well-formed list whose
    concatenation is the translated text. *)

Definition lines_ok (ls : list pystr) : Prop :=
  Forall (fun l => l <> [] /\ forall i, l !! i = Some LF -> S i = length l) ls /\
  forall j l, S j < length ls -> ls !! j = Some l -> last l = Some LF.

Lemma split_lines_no_LF l s cur :
  (forall i, l !! i <> Some LF) -> split_lines (l ++ s) cur = split_lines s (cur ++ l).
Proof.
  revert cur. induction l as [|c l IH]; intros cur Hl; simpl; [by rewrite app_nil_r|].
  rewrite decide_False by (intros ->; apply (Hl 0); done).
  rewrite IH, <-app_assoc; [done|]. intros i. apply (Hl (S i)).
Qed.

(** Shape of a well-formed line: text without newline, then possibly one
    newline. *)
Lemma line_ok_cases l :
  (forall i, l !! i = Some LF -> S i = length l) ->
  (forall i, l !! i <> Some LF) \/
  exists l', l = l' ++ [LF] /\ forall i, l' !! i <> Some LF.
Proof.
  intros Hl. destruct (decide (last l = Some LF)) as [Hlast|Hlast].
  - right. destruct l as [|c l0] using rev_ind; [done|]. rewrite last_snoc in Hlast.
    injection Hlast as ->. exists l0. split; [done|]. intros i Hi.
    specialize (Hl i). rewrite lookup_app_l in Hl by (eapply lookup_lt_Some; done).
    specialize (Hl Hi). apply lookup_lt_Some in Hi. rewrite length_app in Hl. simpl in Hl. lia.
  - left. intros i Hi. pose proof (Hl i Hi) as Hlen.
    rewrite last_lookup in Hlast. replace (pred (length l)) with i in Hlast by lia.
    by rewrite Hi in Hlast.
Qed.

Lemma split_lines_concat_ok ls : lines_ok ls -> split_lines (concat ls) [] = ls.
Proof.
  induction ls as [|l ls IH]; intros [Hf Hend]; [done|].
  apply Forall_cons in Hf as [[Hne Hl] Hf]. simpl.
  destruct (line_ok_cases l Hl) as [Hno|(l' & -> & Hno)].
  - destruct ls as [|l2 ls].
    + rewrite app_nil_r. destruct l as [|c0 l0]; [done|].
      rewrite <-(app_nil_r (c0 :: l0)) at 1. rewrite split_lines_no_LF by done. reflexivity.
    + exfalso. specialize (Hend 0 l ltac:(simpl; lia) eq_refl).
      destruct l as [|c l0] using rev_ind; [done|]. rewrite last_snoc in Hend.
      injection Hend as ->. apply (Hno (length l0)). by rewrite lookup_app_r, Nat.sub_diag.
  - rewrite <-app_assoc, split_lines_no_LF by done. simpl.
    f_equal. apply IH. split; [done|]. intros j l2 Hj Hl2. apply (Hend (S j)); simpl; [lia|done].
Qed.

Lemma split_lines_ends s cur :
  forall j l, S j < length (split_lines s cur) -> split_lines s cur !! j = Some l -> last l = Some LF.
Proof.
  revert cur. induction s as [|c s IH]; intros cur j l Hj Hl; simpl in *.
  - case_decide; simpl in *; lia.
  - case_decide as Hc.
    + destruct j as [|j]; simpl in *.
      * injection Hl as <-. subst. by rewrite last_snoc.
      * apply (IH [] j); [lia|done].
    + by apply (IH (cur ++ [c]) j).
Qed.

(** C15: [f.readlines()] cuts the text read after universal-newline
    translation exactly after each newline: a list of lines is the result
    if and only if it is well formed and its lines put back together give
    the translated text. *)
Theorem readlines_spec text ls :
  concat ls = translate_newlines text /\ lines_ok ls <-> ls = readlines text.
Proof.
  split.
  - intros [Hc Hok]. unfold readlines. rewrite <-Hc. symmetry. by apply split_lines_concat_ok.
  - intros ->. split; [apply split_lines_concat|split].
    + apply split_lines_shape. intros i. by rewrite lookup_nil.
    + apply split_lines_ends.
Qed.

(** ** Writing: [open(name, 'w')] and [f.write] *)

Record platform := {
  os_linesep : pystr;
  locale_encode : pystr -> option (list N)
}.

Definition posix_utf8 : platform := {| os_linesep := [LF]; locale_encode := utf8_encode |}.

(** ISO-8859-1: one byte per character below [U+0100]. *)
Definition latin1_encode (s : pystr) : option (list N) :=
  if forallb (fun c => (c <? 256)%N) s then Some s else None.

Definition latin1_platform : platform :=
  {| os_linesep := [LF]; locale_encode := latin1_encode |}.

(** The file object: the name it writes to. *)
Record file := { file_name : pystr }.

Definition open_write (name : pystr) : io file := fun w =>
  if decide (name ∈ readonly w) then (inl (PermissionError name), w)
  else (inr {| file_name := name |},
        {| fs := <[name := []]> (fs w); readonly := readonly w |}).

(** [TextIOWrapper.write]: newline translation, then encoding. *)
Definition translate_write (linesep s : pystr) : pystr :=
  s ≫= fun c => if decide (c = LF) then linesep else [c].

Definition fwrite (plat : platform) (f : file) (s : pystr) : io unit := fun w =>
  match locale_encode plat (translate_write (os_linesep plat) s) with
  | None => (inl UnicodeEncodeError, w)
  | Some e =>
      (inr (), {| fs := <[file_name f := default [] (fs w !! file_name f) ++ bytes_of e]> (fs w);
                  readonly := readonly w |})
  end.

(** ** The characters read and written *)

Lemma translate_newlines_Forall (P : char -> Prop) s :
  P LF -> Forall P s -> Forall P (translate_newlines s).
Proof.
  intros HLF. induction s as [s IH] using (well_founded_induction (Wf_nat.well_founded_ltof _ length)).
  destruct s as [|c r]; [constructor|]. intros [Hc Hr]%Forall_cons. simpl.
  case_decide; [|constructor; [done|apply IH; [unfold Wf_nat.ltof; simpl; lia|done]]].
  destruct r as [|c' r']; [by repeat constructor|].
  apply Forall_cons in Hr as Hr'. destruct Hr' as [Hc' Hr'].
  case_decide; constructor; try done; apply IH; try done; unfold Wf_nat.ltof; simpl; lia.
Qed.

Lemma split_lines_Forall (P : char -> Prop) s cur :
  Forall P cur -> Forall P s -> Forall (Forall P) (split_lines s cur).
Proof.
  revert cur. induction s as [|c r IH]; intros cur Hcur Hs; simpl.
  - case_decide; by repeat constructor.
  - apply Forall_cons in Hs as [Hc Hr].
    assert (Forall P (cur ++ [c])) by (apply Forall_app_2; [|constructor]; done).
    case_decide; [constructor|]; auto.
Qed.

Lemma readlines_Forall (P : char -> Prop) text :
  P LF -> Forall P text -> Forall (Forall P) (readlines text).
Proof.
  intros HLF Ht. apply split_lines_Forall; [constructor|]. by apply translate_newlines_Forall.
Qed.

Lemma translate_write_LF s : translate_write [LF] s = s.
Proof.
  induction s as [|c s IH]; [done|]. unfold translate_write in *. simpl.
  case_decide; subst; simpl; f_equal; exact IH.
Qed.
