(* ===== verification/PyStr.v ===== *)
(** * The [str] methods the program calls

    [str.isspace] as CPython decides it, [str.strip] (line 54),
    [str.replace] (line 58, via the scanner of [Scan]), [str.endswith]
    (line 73) and [str.join] (lines 49 and 91), with their behaviour on
    every branch. *)

From S2P Require Import Prelude Scan.

(** ** [str.isspace] on one code point

    CPython's [_PyUnicode_IsWhitespace]: the characters of bidirectional
    class WS, B or S and of category Zs. *)
Definition py_isspace (c : char) : bool :=
  (((9 <=? c) && (c <=? 13)) || ((28 <=? c) && (c <=? 31)) || (c =? 32)
  || (c =? 133) || (c =? 160) || (c =? 5760)
  || ((8192 <=? c) && (c <=? 8202)) || (c =? 8232) || (c =? 8233)
  || (c =? 8239) || (c =? 8287) || (c =? 12288))%N.

(** ** [str.strip()] *)

Fixpoint drop_while {A} (p : A -> bool) (l : list A) : list A :=
  match l with
  | [] => []
  | x :: l' => if p x then drop_while p l' else l
  end.

(** CPython's [do_strip]: skip whitespace from the left, then from the
    right of what is left. *)
Definition lstrip (s : pystr) : pystr := drop_while py_isspace s.
Definition rstrip (s : pystr) : pystr := rev (drop_while py_isspace (rev s)).
Definition strip (s : pystr) : pystr := rstrip (lstrip s).

(** ** [str.endswith(suffix)] *)
Definition endswith (s suffix : pystr) : bool := bool_decide (suffix `suffix_of` s).

(** ** [str.join(iterable)] *)
Definition join (sep : pystr) (xs : list pystr) : pystr :=
  match xs with
  | [] => []
  | x :: xs' => x ++ concat (map (fun y => sep ++ y) xs')
  end.

(** ** [str.replace(old, new)]

    CPython replaces the non-overlapping occurrences of [old] from the
    left; an empty [old] inserts [new] before every character and at the
    end. *)
Definition replace_step (old new : pystr) (s : pystr) : pystr * option pystr :=
  match s with
  | [] => (if decide (old = []) then new else [], None)
  | c :: r =>
      if decide (old = []) then (new ++ [c], Some r)
      else if decide (old `prefix_of` s) then (new, Some (drop (length old) s))
      else ([c], Some r)
  end.

Lemma replace_step_shorter old new s o r :
  replace_step old new s = (o, Some r) -> length r < length s.
Proof.
  unfold replace_step. destruct s as [|c s]; [done|].
  repeat case_decide; intros; simplify_eq/=; [lia| |lia].
  rewrite length_drop. destruct old; simpl in *; [done|lia].
Qed.

Definition replace_scanner (old new : pystr) : Scanner N N :=
  {| step := replace_step old new; step_shorter := replace_step_shorter old new |}.

Definition replace (s old new : pystr) : pystr := scan (replace_scanner old new) s.

(** ** Lemmas on [drop_while] and [strip] *)

Lemma drop_while_spec {A} (p : A -> bool) (l : list A) :
  exists pre, l = pre ++ drop_while p l /\ Forall (fun x => p x = true) pre /\
    (drop_while p l = [] \/ exists x t, drop_while p l = x :: t /\ p x = false).
Proof.
  induction l as [|x l (pre & Hl & Hpre & Hrest)]; [exists []; auto|]. simpl.
  destruct (p x) eqn:Hx.
  - exists (x :: pre). simpl. rewrite <-Hl. eauto using Forall.
  - exists []. eauto 7 using Forall.
Qed.

Lemma drop_while_nil_iff {A} (p : A -> bool) (l : list A) :
  drop_while p l = [] <-> Forall (fun x => p x = true) l.
Proof.
  induction l as [|x l IH]; simpl; [split; auto|].
  rewrite Forall_cons, <-IH. destruct (p x) eqn:Hx; [tauto|].
  split; [done|]. intros [? _]; congruence.
Qed.

Lemma rstrip_spec s :
  exists r, s = rstrip s ++ r /\ Forall (fun c => py_isspace c = true) r /\
    (rstrip s = [] \/ exists c t, rstrip s = t ++ [c] /\ py_isspace c = false).
Proof.
  unfold rstrip. destruct (drop_while_spec py_isspace (rev s)) as (r & Hr & Hsp & Hk).
  exists (rev r). split; [|split; [by apply Forall_rev|]].
  - by rewrite <-rev_app_distr, <-Hr, rev_involutive.
  - destruct Hk as [-> | (c & t & -> & Hc)]; [by left|right].
    exists c, (rev t). done.
Qed.

(** [strip] removes whitespace around a core that neither starts nor
    ends with whitespace. *)
Lemma strip_spec s :
  exists l r, s = l ++ strip s ++ r /\
    Forall (fun c => py_isspace c = true) l /\ Forall (fun c => py_isspace c = true) r /\
    (strip s = [] \/ exists c t, strip s = c :: t /\ py_isspace c = false) /\
    (strip s = [] \/ exists c t, strip s = t ++ [c] /\ py_isspace c = false).
Proof.
  unfold strip. destruct (drop_while_spec py_isspace s) as (l & Hl & Hl1 & Hhd).
  fold (lstrip s) in *.
  destruct (rstrip_spec (lstrip s)) as (r & Hr & Hr1 & Htl).
  exists l, r. split_and!; [by rewrite <-Hr| done | done | | done].
  destruct (rstrip (lstrip s)) as [|x u] eqn:Hk; [by left|right].
  destruct Hhd as [Hm | (c & t & Hm & Hc)]; [by rewrite Hm in Hr|].
  rewrite Hm in Hr. injection Hr as -> _. eauto.
Qed.

(** The guard [if not line: continue] holds exactly for the lines made of
    whitespace only. *)
Lemma strip_nil_iff s :
  strip s = [] <-> Forall (fun c => py_isspace c = true) s.
Proof.
  unfold strip, rstrip, lstrip.
  rewrite <-drop_while_nil_iff.
  split; intros H.
  - apply (f_equal (@rev _)) in H. rewrite rev_involutive in H.
    simpl in H. apply drop_while_nil_iff, Forall_rev in H.
    rewrite rev_involutive in H.
    destruct (drop_while_spec py_isspace s) as (_ & _ & _ & [Hm|(c & t & Hm & Hc)]);
      [done|]. rewrite Hm in H. inversion H. congruence.
  - by rewrite H.
Qed.

(** ** Lemmas on [replace] *)

Section Replace.
Context (old new : pystr) (Hold : old <> []).

Lemma replace_nil : replace [] old new = [].
Proof. unfold replace. rewrite scan_unfold. cbn [step replace_scanner replace_step]. by case_decide. Qed.

Lemma replace_hit s :
  old `prefix_of` s -> replace s old new = new ++ replace (drop (length old) s) old new.
Proof.
  intros Hp. unfold replace at 1. rewrite scan_unfold.
  destruct s as [|c r]; [destruct old; [done|by apply prefix_nil_not in Hp]|].
  cbn [step replace_scanner replace_step]. by rewrite decide_False, decide_True.
Qed.

Lemma replace_miss c r :
  ~ old `prefix_of` (c :: r) -> replace (c :: r) old new = c :: replace r old new.
Proof.
  intros Hp. unfold replace at 1. rewrite scan_unfold. cbn [step replace_scanner replace_step].
  by rewrite decide_False, decide_False.
Qed.

(** Text without an occurrence of [old] is left as it is. *)
Lemma replace_id s : ~ old `infix_of` s -> replace s old new = s.
Proof.
  induction s as [|c r IH]; intros Hinf; [apply replace_nil|].
  rewrite replace_miss; [f_equal; apply IH|]; intros Hp; apply Hinf.
  - by apply infix_cons_r.
  - by apply prefix_infix.
Qed.

(** Replacing by a string of the same length keeps the length. *)
Lemma replace_length s :
  length old = length new -> length (replace s old new) = length s.
Proof.
  intros Hlen. unfold replace.
  apply (scan_ind (replace_scanner old new) (fun s o => length o = length s)).
  intros t. destruct t as [|c r]; cbn [step replace_scanner replace_step];
    rewrite decide_False by done; [done|].
  case_decide as Hp.
  - intros IH. rewrite length_app, IH, length_drop.
    apply prefix_length in Hp. lia.
  - intros IH. simpl. by rewrite IH.
Qed.

End Replace.

Lemma endswith_char s c : endswith s [c] = true <-> exists t, s = t ++ [c].
Proof.
  unfold endswith. rewrite bool_decide_eq_true. split; intros [t ->]; by exists t.
Qed.

(** ** The characters of the results

    [strip] keeps a part of its argument, [replace] and [join] build
    their result from their arguments: a property of every character
    carries over. *)

Section Chars.
Context (P : char -> Prop).

Lemma strip_Forall s : Forall P s -> Forall P (strip s).
Proof.
  destruct (strip_spec s) as (l & r & Hs & _). intros H. rewrite Hs in H.
  by apply Forall_app in H as [_ [? _]%Forall_app].
Qed.

Lemma replace_Forall s old new : Forall P new -> Forall P s -> Forall P (replace s old new).
Proof.
  intros Hn. unfold replace.
  apply (scan_ind (replace_scanner old new) (fun s o => Forall P s -> Forall P o)).
  intros [|c r]; cbn [step replace_scanner replace_step].
  - intros _. by case_decide.
  - repeat case_decide; intros IH Hs; pose proof Hs as [Hc Hr]%Forall_cons;
      apply Forall_app_2; auto using Forall_drop.
    by apply Forall_app_2; [|constructor].
Qed.

Lemma join_Forall sep xs : Forall P sep -> Forall (Forall P) xs -> Forall P (join sep xs).
Proof.
  intros Hsep [|x xs' Hx Hxs]; simpl; [done|]. apply Forall_app_2; [done|].
  apply Forall_concat, Forall_fmap. eapply Forall_impl; [done|]. intros y Hy.
  by apply Forall_app_2.
Qed.

End Chars.
