(* ===== verification/PySlice.v ===== *)
(** * Python slices [l[a:b]] with step 1

    The program slices twice: [lines[insert_line_idx+1:end_line]]
    (line 42) and [line[:-1]] (line 74).  CPython adjusts each bound with
    [PySlice_AdjustIndices]: a negative bound counts from the end and is
    clamped at 0, a bound past the end is clamped at the length, and a
    stop before the start gives the empty slice.  No slice raises. *)

From S2P Require Import Prelude.

Definition slice_bound (len i : Z) : Z :=
  if (i <? 0)%Z then Z.max 0 (i + len) else Z.min i len.

Definition py_slice {A} (l : list A) (start stop : option Z) : list A :=
  let len := Z.of_nat (length l) in
  let a := match start with None => 0%Z | Some i => slice_bound len i end in
  let b := match stop with None => len | Some i => slice_bound len i end in
  take (Z.to_nat (b - a)) (drop (Z.to_nat a) l).

Lemma slice_bound_range len i : (0 <= len)%Z -> (0 <= slice_bound len i <= len)%Z.
Proof. unfold slice_bound. destruct (Z.ltb_spec i 0); lia. Qed.

Lemma slice_bound_nonneg len i :
  (0 <= i)%Z -> slice_bound len i = Z.min i len.
Proof. unfold slice_bound. destruct (Z.ltb_spec i 0); lia. Qed.

(** With non-negative bounds, the slice holds the elements of index
    [a <= k < b] that exist, in order. *)
Lemma py_slice_lookup {A} (l : list A) a b i :
  (0 <= a)%Z -> (0 <= b)%Z ->
  py_slice l (Some a) (Some b) !! i =
    if bool_decide (Z.of_nat i < b - a)%Z then l !! (Z.to_nat a + i) else None.
Proof.
  intros Ha Hb. unfold py_slice. rewrite !slice_bound_nonneg by done.
  case_bool_decide as Hi.
  - destruct (decide (Z.to_nat a + i < length l)) as [Hlt|Hge].
    + rewrite lookup_take_lt by lia. rewrite lookup_drop.
      by replace (Z.to_nat (Z.min a (Z.of_nat (length l)))) with (Z.to_nat a) by lia.
    + rewrite (lookup_ge_None_2 l) by lia.
      destruct (decide (i < Z.to_nat (Z.min b (Z.of_nat (length l)) -
                                     Z.min a (Z.of_nat (length l))))).
      * rewrite lookup_take_lt, lookup_drop by done. apply lookup_ge_None_2. lia.
      * by rewrite lookup_take_ge by lia.
  - rewrite lookup_take_ge; [done|lia].
Qed.

(** With non-negative bounds the adjustment is invisible: the slice is
    [take (b - a) (drop a l)]. *)
Lemma py_slice_nonneg {A} (l : list A) a b :
  (0 <= a)%Z -> (0 <= b)%Z ->
  py_slice l (Some a) (Some b) = take (Z.to_nat b - Z.to_nat a) (drop (Z.to_nat a) l).
Proof.
  intros Ha Hb. apply list_eq. intros i. rewrite py_slice_lookup by done.
  case_bool_decide.
  - rewrite lookup_take_lt by lia. by rewrite lookup_drop.
  - rewrite lookup_take_ge; [done|lia].
Qed.

(** C17: The number of lines a slice keeps, with the end clamped at the
    length of the list. *)
Lemma length_py_slice {A} (l : list A) a b :
  (0 <= a)%Z -> (0 <= b)%Z ->
  length (py_slice l (Some a) (Some b)) = Nat.min (length l) (Z.to_nat b) - Z.to_nat a.
Proof.
  intros Ha Hb. rewrite py_slice_nonneg, length_take, length_drop by done. lia.
Qed.

(** [line[:-1]] drops the last character. *)
Lemma py_slice_drop_last {A} (t : list A) (c : A) :
  py_slice (t ++ [c]) None (Some (-1)%Z) = t.
Proof.
  unfold py_slice, slice_bound. simpl. rewrite length_app. simpl.
  replace (Z.to_nat (Z.max 0 (-1 + Z.of_nat (length t + 1)) - 0)) with (length t) by lia.
  by rewrite drop_0, take_app_length.
Qed.

(** ** Witnesses *)

Lemma length_py_slice_witness :
  (0 <= 769)%Z /\ (0 <= 1713)%Z /\
  length (py_slice (repeat 0%N 2000) (Some 769%Z) (Some 1713%Z)) = 944.
Proof.
  split; [lia|split; [lia|]].
  rewrite (length_py_slice (repeat 0%N 2000) 769 1713) by lia.
  rewrite repeat_length. vm_compute. reflexivity.
Defined.

Lemma py_slice_Forall {A} (P : A -> Prop) (l : list A) a b :
  Forall P l -> Forall P (py_slice l a b).
Proof. intros Hl. unfold py_slice. by apply Forall_take, Forall_drop. Qed.
