(* ===== verification/PyInt.v ===== *)
(** * [str(int)] in decimal

    Line 87 builds the file name with the f-string [{part}], that is
    [str(part)]: the decimal digits of the integer, with a leading [-]
    when it is negative.  [digits_fuel] produces the digits from the
    least significant one; its fuel [S (N.size n)] exceeds the number of
    digits.  [parse_int] reads such a string back; the round trip makes
    [str_int] injective, which keeps the part files apart. *)

From S2P Require Import Prelude.

Definition ZERO : char := 48%N.
Definition MINUS : char := 45%N.

Definition digit_char (d : N) : char := (ZERO + d)%N.

Fixpoint digits_fuel (fuel : nat) (n : N) (acc : pystr) : pystr :=
  match fuel with
  | O => acc
  | S f =>
      let acc' := digit_char (n mod 10) :: acc in
      if (n <? 10)%N then acc' else digits_fuel f (n / 10) acc'
  end.

Definition str_N (n : N) : pystr := digits_fuel (S (N.to_nat (N.size n))) n [].

Definition str_int (z : Z) : pystr :=
  if (z <? 0)%Z then MINUS :: str_N (Z.to_N (- z)) else str_N (Z.to_N z).

(** ** The inverse: reading a decimal literal *)

Definition is_digit (c : char) : bool := ((ZERO <=? c) && (c <? ZERO + 10))%N.

Fixpoint parse_digits (s : pystr) (acc : N) : option N :=
  match s with
  | [] => Some acc
  | c :: r =>
      if is_digit c then parse_digits r (acc * 10 + (c - ZERO))%N else None
  end.

Definition parse_N (s : pystr) : option N :=
  match s with [] => None | _ => parse_digits s 0 end.

Definition parse_int (s : pystr) : option Z :=
  match s with
  | c :: r => if (c =? MINUS)%N then (fun n => (- Z.of_N n)%Z) <$> parse_N r
              else Z.of_N <$> parse_N s
  | [] => None
  end.

(** The decimal literals [str(int)] can print: [0], or digits without a
    leading zero, with a [-] before a non-zero value. *)
Definition canonical_digits (s : pystr) : bool :=
  match s with
  | [] => false
  | [c] => is_digit c
  | c :: t => is_digit c && negb (c =? ZERO)%N && forallb is_digit t
  end.

Definition canonical_int (s : pystr) : bool :=
  match s with
  | [] => false
  | c :: t => if (c =? MINUS)%N then canonical_digits t && negb (bool_decide (t = [ZERO]))
              else canonical_digits s
  end.

(** ** Lemmas *)

Lemma is_digit_char d : (d < 10)%N -> is_digit (digit_char d) = true.
Proof.
  intros Hd. unfold is_digit, digit_char.
  rewrite (proj2 (N.leb_le _ _)), (proj2 (N.ltb_lt _ _)); [done|lia..].
Qed.

Lemma parse_digits_cons d r a :
  (d < 10)%N -> parse_digits (digit_char d :: r) a = parse_digits r (a * 10 + d)%N.
Proof.
  intros Hd. simpl. rewrite is_digit_char by done.
  unfold digit_char. by replace (ZERO + d - ZERO)%N with d by lia.
Qed.

Lemma digits_fuel_shape fuel n acc :
  exists ds, digits_fuel fuel n acc = ds ++ acc /\ Forall (fun c => is_digit c = true) ds /\
    (fuel <> O -> ds <> []).
Proof.
  revert n acc. induction fuel as [|f IH]; intros n acc; [by exists []|].
  simpl. assert (Hdig : is_digit (digit_char (n mod 10)) = true)
    by (apply is_digit_char, N.mod_lt; discriminate).
  destruct (n <? 10)%N.
  - exists [digit_char (n mod 10)]. auto.
  - destruct (IH (n / 10)%N (digit_char (n mod 10) :: acc)) as (ds & -> & Hds & _).
    exists (ds ++ [digit_char (n mod 10)]). rewrite <-app_assoc.
    split_and!; [done| |by destruct ds].
    apply Forall_app. auto.
Qed.

Lemma parse_digits_fuel fuel n acc :
  (n < 10 ^ N.of_nat fuel)%N -> parse_digits (digits_fuel fuel n acc) 0 = parse_digits acc n.
Proof.
  revert n acc. induction fuel as [|f IH]; intros n acc Hn.
  - simpl in Hn. by replace n with 0%N by lia.
  - rewrite Nat2N.inj_succ, N.pow_succ_r' in Hn. simpl.
    pose proof (N.div_mod n 10 ltac:(discriminate)).
    pose proof (N.mod_lt n 10 ltac:(discriminate)).
    destruct (N.ltb_spec n 10).
    + by rewrite parse_digits_cons, N.mod_small by lia.
    + rewrite IH by (apply N.Div0.div_lt_upper_bound; lia).
      rewrite parse_digits_cons by lia. f_equal. lia.
Qed.

Lemma str_N_fuel n : (n < 10 ^ N.of_nat (S (N.to_nat (N.size n))))%N.
Proof.
  rewrite Nat2N.inj_succ, N2Nat.id, N.pow_succ_r'.
  assert (H2 := N.size_gt n).
  assert (2 ^ N.size n <= 10 ^ N.size n)%N by (apply N.pow_le_mono_l; lia).
  lia.
Qed.

Lemma str_N_shape n :
  exists c t, str_N n = c :: t /\ is_digit c = true /\ Forall (fun c => is_digit c = true) t.
Proof.
  unfold str_N. destruct (digits_fuel_shape (S (N.to_nat (N.size n))) n [])
    as ([|c t] & Hds & Hall & Hne); [by destruct Hne|].
  rewrite Hds, app_nil_r. apply Forall_cons in Hall as [??]. eauto.
Qed.

Lemma parse_N_str_N n : parse_N (str_N n) = Some n.
Proof.
  destruct (str_N_shape n) as (c & t & Hs & _).
  unfold parse_N. rewrite Hs, <-Hs. unfold str_N.
  by rewrite parse_digits_fuel by apply str_N_fuel.
Qed.

Lemma str_int_parse z : parse_int (str_int z) = Some z.
Proof.
  unfold str_int. destruct (Z.ltb_spec z 0).
  - simpl. rewrite parse_N_str_N. simpl. f_equal. lia.
  - destruct (str_N_shape (Z.to_N z)) as (c & t & Hs & Hc & _).
    assert (Hneq : (c =? MINUS)%N = false).
    { apply N.eqb_neq. intros ->. discriminate Hc. }
    rewrite Hs. unfold parse_int. rewrite Hneq, <-Hs, parse_N_str_N.
    simpl. f_equal. lia.
Qed.

(** The most significant digit comes out last: with enough fuel it is
    not zero for a positive number. *)
Lemma digits_fuel_head fuel n acc :
  (0 < n)%N -> (n < 10 ^ N.of_nat fuel)%N ->
  exists d t, digits_fuel fuel n acc = digit_char d :: t /\ (0 < d < 10)%N.
Proof.
  revert n acc. induction fuel as [|f IH]; intros n acc Hn Hf; [simpl in Hf; lia|].
  rewrite Nat2N.inj_succ, N.pow_succ_r' in Hf. simpl.
  pose proof (N.div_mod n 10 ltac:(discriminate)).
  pose proof (N.mod_lt n 10 ltac:(discriminate)).
  destruct (N.ltb_spec n 10).
  - exists (n mod 10)%N, acc. rewrite N.mod_small by lia. split; [done|lia].
  - apply IH; [|apply N.Div0.div_lt_upper_bound; lia].
    apply N.div_str_pos. lia.
Qed.

Lemma is_digit_char_ne_zero d : (0 < d < 10)%N -> (digit_char d =? ZERO)%N = false.
Proof. intros Hd. apply N.eqb_neq. unfold digit_char, ZERO. lia. Qed.

Lemma canonical_str_N n : canonical_digits (str_N n) = true /\ (0 < n -> str_N n <> [ZERO])%N.
Proof.
  destruct (N.eq_dec n 0) as [->|Hn]; [split; [reflexivity|lia]|].
  destruct (str_N_shape n) as (c & t & Hs & Hc & Ht).
  destruct (digits_fuel_head (S (N.to_nat (N.size n))) n [] ltac:(lia) (str_N_fuel n))
    as (d & t' & Hd & Hd10).
  fold (str_N n) in Hd. rewrite Hs in Hd. injection Hd as -> _.
  rewrite Hs. split.
  - destruct t as [|c' t]; [done|]. cbn [canonical_digits].
    rewrite Hc, is_digit_char_ne_zero by done. simpl.
    change (forallb is_digit (c' :: t) = true). clear -Ht.
    induction Ht as [|x l Hx _ IH]; [done|]. simpl. by rewrite Hx, IH.
  - intros _ [= Hz]. unfold digit_char, ZERO in Hz. lia.
Qed.

(** C14: [str(int)] prints the canonical decimal literal of the integer:
    no leading zero, a [-] only before a non-zero value, and reading it
    back gives the integer.  The part files are named by this literal. *)
Theorem parse_int_str_int z : parse_int (str_int z) = Some z /\ canonical_int (str_int z) = true.
Proof.
  split; [apply str_int_parse|]. unfold str_int. destruct (Z.ltb_spec z 0).
  - destruct (canonical_str_N (Z.to_N (- z))) as [Hc Hne]. simpl. rewrite Hc.
    rewrite bool_decide_false by (apply Hne; lia). done.
  - destruct (canonical_str_N (Z.to_N z)) as [Hc _].
    destruct (str_N_shape (Z.to_N z)) as (c & t & Hs & Hd & _).
    rewrite Hs in *. cbn [canonical_int].
    assert (Hneq : (c =? MINUS)%N = false) by (apply N.eqb_neq; intros ->; discriminate Hd).
    by rewrite Hneq.
Qed.

Lemma str_int_inj z1 z2 : str_int z1 = str_int z2 -> z1 = z2.
Proof.
  intros H. apply (f_equal parse_int) in H. rewrite !str_int_parse in H. congruence.
Qed.
