(* ===== verification/PyRe.v ===== *)
(** * [re.sub] with the pattern of lines 64 and 70

    [regex] has the constructs the pattern [', (0|1), '] uses: literal
    characters, concatenation, alternation and a capturing group.
    [rmatch] is a backtracking matcher that lists every way the pattern
    matches a prefix of the input, in Python's priority order (left
    alternative first), with the text of each group in the order of its
    opening parenthesis; Python's match is the head of that list.
    [re_sub] is CPython's substitution loop: it tries a match at each
    position from the left, replaces a non-empty match and continues
    after it, and, for an empty match, inserts the replacement and copies
    one character (the rule of Python 3.7 on).  The loop is an instance
    of [Scan.Scanner]. *)

From S2P Require Import Prelude Scan.

Inductive regex :=
| REmpty
| RChar (c : char)
| RSeq (r1 r2 : regex)
| RAlt (r1 r2 : regex)
| RGroup (r : regex).

(** A literal string as a pattern. *)
Definition rlit (s : pystr) : regex := foldr (fun c r => RSeq (RChar c) r) REmpty s.

(** Each result is the rest of the input after the match and the texts
    of the groups. *)
Fixpoint rmatch (r : regex) (s : pystr) : list (pystr * list pystr) :=
  match r with
  | REmpty => [(s, [])]
  | RChar c =>
      match s with
      | c' :: s' => if decide (c = c') then [(s', [])] else []
      | [] => []
      end
  | RSeq r1 r2 =>
      flat_map (fun '(s1, g1) => map (fun '(s2, g2) => (s2, g1 ++ g2)) (rmatch r2 s1))
               (rmatch r1 s)
  | RAlt r1 r2 => rmatch r1 s ++ rmatch r2 s
  | RGroup r1 =>
      map (fun '(s1, g) => (s1, take (length s - length s1) s :: g)) (rmatch r1 s)
  end.

(** A match object: the matched text ([group(0)]) and the groups. *)
Record match_obj := { m_text : pystr; m_groups : list pystr }.

Definition group (m : match_obj) (n : nat) : pystr :=
  match n with
  | O => m_text m
  | S k => default [] (m_groups m !! k)
  end.

(** [pattern.match(s)]: the first match at the start of [s]. *)
Definition match_at (r : regex) (s : pystr) : option (match_obj * pystr) :=
  match rmatch r s with
  | (rest, gs) :: _ => Some ({| m_text := take (length s - length rest) s; m_groups := gs |}, rest)
  | [] => None
  end.

(** Every match consumes a prefix of the input. *)
Lemma rmatch_suffix r s rest gs :
  In (rest, gs) (rmatch r s) -> rest `suffix_of` s.
Proof.
  revert s rest gs. induction r as [|c|r1 IH1 r2 IH2|r1 IH1 r2 IH2|r1 IH1];
    intros s rest gs Hin; simpl in Hin.
  - destruct Hin as [[= ->]|[]]. done.
  - destruct s as [|c' s']; [done|]. case_decide; [|done].
    destruct Hin as [[= -> _]|[]]. by apply suffix_cons_r.
  - apply in_flat_map in Hin as ([s1 g1] & Hin1 & Hin2).
    apply in_map_iff in Hin2 as ([s2 g2] & [= -> _] & Hin2).
    etrans; [by eapply IH2|by eapply IH1].
  - apply in_app_or in Hin as [Hin|Hin]; [by eapply IH1|by eapply IH2].
  - apply in_map_iff in Hin as ([s1 g] & [= -> _] & Hin). by eapply IH1.
Qed.

Lemma match_at_suffix r s m rest :
  match_at r s = Some (m, rest) -> rest `suffix_of` s.
Proof.
  unfold match_at. destruct (rmatch r s) as [|[rest' gs] l] eqn:Hm; [done|].
  intros [= _ <-]. eapply (rmatch_suffix r s rest' gs). rewrite Hm. by left.
Qed.

(** ** The substitution loop *)

Definition re_sub_step (r : regex) (repl : match_obj -> pystr) (s : pystr)
  : pystr * option pystr :=
  match match_at r s with
  | Some (m, rest) =>
      if decide (length rest < length s) then (repl m, Some rest)
      else match s with
           | [] => (repl m, None)
           | c :: s' => (repl m ++ [c], Some s')
           end
  | None =>
      match s with
      | [] => ([], None)
      | c :: s' => ([c], Some s')
      end
  end.

Lemma re_sub_step_shorter r repl s o rest :
  re_sub_step r repl s = (o, Some rest) -> length rest < length s.
Proof.
  unfold re_sub_step. destruct (match_at r s) as [[m rest']|].
  - case_decide; [by intros [= _ <-]|]. destruct s; [done|]. intros [= _ <-]. simpl. lia.
  - destruct s; [done|]. intros [= _ <-]. simpl. lia.
Qed.

Definition re_sub_scanner (r : regex) (repl : match_obj -> pystr) : Scanner N N :=
  {| step := re_sub_step r repl; step_shorter := re_sub_step_shorter r repl |}.

(** [re.sub(pattern, repl, string)] with a callable [repl]. *)
Definition re_sub (r : regex) (repl : match_obj -> pystr) (s : pystr) : pystr :=
  scan (re_sub_scanner r repl) s.

(** ** The pattern and the callback of lines 64 and 70 *)

(** [r"', (0|1), '"] *)
Definition bool_pattern : regex :=
  RSeq (rlit ‹"', "›) (RSeq (RGroup (RAlt (rlit ‹"0"›) (rlit ‹"1"›))) (rlit ‹", '"›)).

(** [lambda m: f"', {'true' if m.group(1)=='1' else 'false'}, '"] *)
Definition bool_repl (m : match_obj) : pystr :=
  ‹"', "› ++ (if decide (group m 1 = ‹"1"›) then ‹"true"› else ‹"false"›) ++ ‹", '"›.

(** [re.sub(r"', (0|1), '", <callback>, line)] *)
Definition bool_sub (line : pystr) : pystr := re_sub bool_pattern bool_repl line.

(** ** A direct rewriter, and its equivalence with [bool_sub] *)

(** The seven characters [', d, '] with [d] one of [0], [1]. *)
Definition bool_marker (c c1 c2 d c3 c4 c5 : char) : Prop :=
  [c; c1; c2] = ‹"', "› /\ [c3; c4; c5] = ‹", '"› /\ (d = 48%N \/ d = 49%N).

Definition bool_word (d : char) : pystr :=
  if decide (d = 49%N) then ‹"true"› else ‹"false"›.

Fixpoint bool_rewrite (s : pystr) : pystr :=
  match s with
  | [] => []
  | c :: s' =>
      match s' with
      | c1 :: c2 :: d :: c3 :: c4 :: c5 :: rest =>
          if decide (bool_marker c c1 c2 d c3 c4 c5)
          then ‹"', "› ++ bool_word d ++ ‹", '"› ++ bool_rewrite rest
          else c :: bool_rewrite s'
      | _ => c :: bool_rewrite s'
      end
  end.

Lemma match_at_bool_pattern s :
  match_at bool_pattern s =
    match s with
    | c :: c1 :: c2 :: d :: c3 :: c4 :: c5 :: rest =>
        if decide (bool_marker c c1 c2 d c3 c4 c5)
        then Some ({| m_text := [c; c1; c2; d; c3; c4; c5]; m_groups := [[d]] |}, rest)
        else None
    | _ => None
    end.
Proof.
  unfold match_at, bool_marker, bool_pattern, rlit. eval_lits.
  destruct s as [|c [|c1 [|c2 [|d [|c3 [|c4 [|c5 rest]]]]]]]; simpl;
    repeat (case_decide; destruct_and?; destruct_or?; simplify_eq/=); try done;
    by rewrite ?Nat.sub_succ_l, ?Nat.sub_diag by lia.
Qed.

Lemma bool_repl_marker c c1 c2 d c3 c4 c5 :
  bool_repl {| m_text := [c; c1; c2; d; c3; c4; c5]; m_groups := [[d]] |} =
    ‹"', "› ++ bool_word d ++ ‹", '"›.
Proof.
  unfold bool_repl, bool_word. simpl. do 2 f_equal.
  eval_lits. repeat case_decide; simplify_eq/=; congruence.
Qed.

Lemma re_sub_bool_rewrite s : bool_sub s = bool_rewrite s.
Proof.
  unfold bool_sub, re_sub.
  apply (scan_ind (re_sub_scanner bool_pattern bool_repl) (fun s o => o = bool_rewrite s)).
  clear s. intros s. cbn [step re_sub_scanner]. unfold re_sub_step.
  rewrite match_at_bool_pattern.
  destruct s as [|c [|c1 [|c2 [|d [|c3 [|c4 [|c5 rest]]]]]]]; try done;
    try (intros ->; reflexivity).
  case_decide as Hm.
  - rewrite decide_True by (cbn; lia). cbv beta iota. intros ->.
    rewrite bool_repl_marker.
    cbn [bool_rewrite]. rewrite decide_True by done. by rewrite <-!app_assoc.
  - cbv beta iota. intros ->. cbn [bool_rewrite]. by rewrite decide_False.
Qed.

(** C7: [re.sub] with the pattern and callback of the program computes the
    direct rewriter [bool_rewrite]: every [', 0, '] or [', 1, '] found
    from the left, without overlap, becomes [', false, '] or
    [', true, '], and nothing else changes. *)
Theorem bool_sub_rewrite s : bool_sub s = bool_rewrite s.
Proof. apply re_sub_bool_rewrite. Qed.

Lemma bool_marker_prefix c c1 c2 d c3 c4 c5 rest :
  bool_marker c c1 c2 d c3 c4 c5 ->
  exists d', (d' = 48%N \/ d' = 49%N) /\
    (‹"', "› ++ [d'] ++ ‹", '"›) `prefix_of` (c :: c1 :: c2 :: d :: c3 :: c4 :: c5 :: rest).
Proof.
  unfold bool_marker. eval_lits. intros ([= -> -> ->] & [= -> -> ->] & Hd).
  exists d. split; [done|]. by exists rest.
Qed.

(** C8: A line in which no [', 0, '] or [', 1, '] occurs is left as it is:
    a [0] or [1] elsewhere (in [', 10, '], ['id1'], [(1, 'x')]) keeps its
    form. *)
Theorem bool_sub_id s :
  (forall d, d = 48%N \/ d = 49%N -> ~ (‹"', "› ++ [d] ++ ‹", '"›) `infix_of` s) ->
  bool_sub s = s.
Proof.
  rewrite re_sub_bool_rewrite. induction s as [|c s' IH]; intros Hno; [done|].
  assert (IH' : bool_rewrite s' = s').
  { apply IH. intros d Hd Hinf. apply (Hno d Hd), infix_cons_r, Hinf. }
  cbn [bool_rewrite].
  destruct s' as [|c1 [|c2 [|d [|c3 [|c4 [|c5 rest]]]]]]; try (by rewrite IH').
  case_decide as Hm; [|by rewrite IH'].
  destruct (bool_marker_prefix _ _ _ _ _ _ _ rest Hm) as (d' & Hd' & Hp).
  destruct (Hno d' Hd'). by apply prefix_infix.
Qed.

(** The rewriter only brings in the characters of its literals: a
    property of every character of the input and of those literals holds
    of every character of the output. *)
Lemma bool_rewrite_Forall (P : char -> Prop) s :
  Forall P ‹"', "› -> Forall P ‹", '"› -> Forall P ‹"true"› -> Forall P ‹"false"› ->
  Forall P s -> Forall P (bool_rewrite s).
Proof.
  intros H1 H2 Ht Hf.
  induction s as [s IH] using (well_founded_induction (Wf_nat.well_founded_ltof _ (@length N))).
  intros Hs. destruct s as [|c s']; [done|]. apply Forall_cons in Hs as [Hc Hs'].
  assert (Htail : Forall P (c :: bool_rewrite s')).
  { constructor; [done|]. apply IH; [unfold Wf_nat.ltof; simpl; lia|done]. }
  cbn [bool_rewrite].
  destruct s' as [|c1 [|c2 [|d [|c3 [|c4 [|c5 rest]]]]]]; try exact Htail.
  case_decide as Hm; [|exact Htail].
  repeat apply Forall_app_2; [done| |done|].
  - unfold bool_word. by case_decide.
  - apply IH; [unfold Wf_nat.ltof; simpl; lia|]. by repeat apply Forall_cons in Hs' as [_ Hs'].
Qed.

(** ** Witnesses *)

Lemma bool_sub_id_witness :
  (forall d, d = 48%N \/ d = 49%N ->
     ~ (‹"', "› ++ [d] ++ ‹", '"›) `infix_of` ‹"('id1', 10, '1')"›) /\
  bool_sub ‹"('id1', 10, '1')"› = ‹"('id1', 10, '1')"›.
Proof.
  assert (H : forall d, d = 48%N \/ d = 49%N ->
     ~ (‹"', "› ++ [d] ++ ‹", '"›) `infix_of` ‹"('id1', 10, '1')"›).
  { intros d [-> | ->]; decide_closed. }
  split; [exact H|]. exact (bool_sub_id _ H).
Defined.
