(* ===== verification/Row.v ===== *)
(** * The row transformation of [process_table] (lines 54-74)

    The body of [for i, line in enumerate(data_lines)] up to the
    [append]: [line.strip()], [if not line: continue], the quote
    escaping of line 58, the boolean rewriting of lines 61-70 for the
    tables [Companies] and [Questions], and the removal of one trailing
    [,] or [;] (lines 73-74).  [transform_row] returns [None] for the
    [continue] branch and [Some row] for the row that is appended. *)

From S2P Require Import Prelude Scan PyStr PySlice PyRe.

(** [line.replace("\\'", "''")] (line 58) *)
Definition escape_quotes (line : pystr) : pystr := replace line ‹"\'"› ‹"''"›.

(** Lines 61-70: two independent [if]s on the table name. *)
Definition normalize_bools (table_name line : pystr) : pystr :=
  let line := if decide (table_name = ‹"Companies"›) then bool_sub line else line in
  if decide (table_name = ‹"Questions"›) then bool_sub line else line.

(** Lines 73-74: [if line.endswith(',') or line.endswith(';'): line = line[:-1]] *)
Definition strip_terminator (line : pystr) : pystr :=
  if endswith line ‹","› || endswith line ‹";"› then py_slice line None (Some (-1)%Z)
  else line.

(** Lines 54-74 *)
Definition transform_row (table_name line : pystr) : option pystr :=
  let line := strip line in
  if decide (line = []) then None
  else Some (strip_terminator (normalize_bools table_name (escape_quotes line))).

(** ** Skipping blank lines *)

(** C9: The loop skips a line exactly when it is made of whitespace. *)
Theorem transform_row_None_iff table_name line :
  transform_row table_name line = None <-> Forall (fun c => py_isspace c = true) line.
Proof.
  unfold transform_row. rewrite <-strip_nil_iff. by case_decide.
Qed.

(** ** The trailing terminator *)

(** C10: A row ending in [,] or [;] loses exactly that character. *)
Theorem strip_terminator_drop t c :
  c = 44%N \/ c = 59%N -> strip_terminator (t ++ [c]) = t.
Proof.
  intros Hc. unfold strip_terminator.
  assert (Hend : endswith (t ++ [c]) ‹","› || endswith (t ++ [c]) ‹";"› = true).
  { apply orb_true_iff. eval_lits.
    destruct Hc as [-> | ->]; [left|right]; apply endswith_char; eauto. }
  rewrite Hend. apply py_slice_drop_last.
Qed.

(** A row ending in neither is unchanged. *)
Lemma strip_terminator_keep s :
  ~ (exists t c, s = t ++ [c] /\ (c = 44%N \/ c = 59%N)) -> strip_terminator s = s.
Proof.
  intros Hno. unfold strip_terminator.
  destruct (endswith s ‹","›) eqn:H1; [|destruct (endswith s ‹";"›) eqn:H2]; simpl; try done.
  - apply endswith_char in H1 as [t ->]. destruct Hno. eauto.
  - apply endswith_char in H2 as [t ->]. destruct Hno. eauto.
Qed.

(** ** Quote escapes *)

(** Every backslash of the text starts a [\'] escape. *)
Fixpoint quote_escapes_only (s : pystr) : bool :=
  match s with
  | [] => true
  | c :: r =>
      (if decide (c = BACKSLASH) then bool_decide (head r = Some QUOTE) else true)
      && quote_escapes_only r
  end.

Lemma quote_escapes_only_lookup s :
  quote_escapes_only s = true <-> forall i, s !! i = Some BACKSLASH -> s !! S i = Some QUOTE.
Proof.
  induction s as [|c r IH]; simpl; [done|]. rewrite andb_true_iff, IH. split.
  - intros [Hc Hr] [|i] Hi; simpl in *; [|by apply Hr].
    injection Hi as ->. rewrite decide_True in Hc by done.
    apply bool_decide_eq_true in Hc. by destruct r; simplify_eq/=.
  - intros H. split; [|intros i; apply (H (S i))].
    case_decide as Hc; [|done]. apply bool_decide_eq_true.
    specialize (H 0). simpl in H. rewrite Hc in H. by destruct r; simpl in *; apply H.
Qed.

Lemma quote_escapes_only_drop s n :
  quote_escapes_only s = true -> quote_escapes_only (drop n s) = true.
Proof.
  rewrite !quote_escapes_only_lookup. intros H i. rewrite !lookup_drop.
  replace (n + S i) with (S (n + i)) by lia. apply H.
Qed.

Lemma quote_escapes_only_strip s :
  quote_escapes_only s = true -> quote_escapes_only (strip s) = true.
Proof.
  rewrite !quote_escapes_only_lookup.
  destruct (strip_spec s) as (l & r & Hs & _ & Hr & _).
  remember (strip s) as m eqn:Hm. clear Hm.
  intros H i Hi. assert (Hlt := lookup_lt_Some _ _ _ Hi).
  specialize (H (length l + i)). rewrite Hs, lookup_app_mid, lookup_app_l in H by done.
  specialize (H Hi). rewrite <-Nat.add_succ_r, lookup_app_mid in H.
  destruct (decide (S i < length m)).
  - by rewrite lookup_app_l in H by lia.
  - rewrite lookup_app_r in H by lia. apply list_elem_of_lookup_2 in H.
    rewrite Forall_forall in Hr. specialize (Hr _ H).
    discriminate Hr.
Qed.

(** With every backslash starting a [\'] escape, line 58 leaves no
    backslash. *)
Lemma escape_quotes_no_backslash s :
  quote_escapes_only s = true -> Forall (fun c => c <> BACKSLASH) (escape_quotes s).
Proof.
  unfold escape_quotes, replace.
  apply (scan_ind (replace_scanner _ _)
    (fun s o => quote_escapes_only s = true -> Forall (fun c => c <> BACKSLASH) o)).
  clear s. intros [|c r]; cbn [step replace_scanner replace_step];
    rewrite decide_False by (eval_lits; done); [done|].
  case_decide as Hp.
  - intros IH Hq. apply Forall_app_2; [decide_closed|].
    by apply IH, quote_escapes_only_drop.
  - intros IH Hq. constructor.
    + intros ->. apply Hp. cbn [quote_escapes_only] in Hq. rewrite decide_True in Hq by done.
      apply andb_true_iff in Hq as [Hq _]. apply bool_decide_eq_true in Hq.
      destruct r as [|c' r']; [done|]. injection Hq as ->. by exists r'.
    + apply IH. cbn [quote_escapes_only] in Hq. by apply andb_true_iff in Hq as [_ Hq].
Qed.

Lemma strip_terminator_Forall (P : char -> Prop) s :
  Forall P s -> Forall P (strip_terminator s).
Proof.
  intros Hs. unfold strip_terminator.
  destruct (_ || _); [|done]. by apply Forall_take, Forall_drop.
Qed.

Lemma normalize_bools_Forall (P : char -> Prop) table_name s :
  Forall P ‹"', "› -> Forall P ‹", '"› -> Forall P ‹"true"› -> Forall P ‹"false"› ->
  Forall P s -> Forall P (normalize_bools table_name s).
Proof.
  intros ???? Hs. unfold normalize_bools.
  do 2 (case_decide; rewrite ?re_sub_bool_rewrite; try apply bool_rewrite_Forall; auto).
Qed.

(** Every character of a row comes from the line or from the text that
    lines 58-70 insert. *)
Lemma transform_row_Forall (P : char -> Prop) table_name line row :
  Forall P ‹"''"› -> Forall P ‹"', "› -> Forall P ‹", '"› -> Forall P ‹"true"› ->
  Forall P ‹"false"› -> Forall P line -> transform_row table_name line = Some row ->
  Forall P row.
Proof.
  intros ????? Hl. unfold transform_row. case_decide; [done|]. intros [= <-].
  apply strip_terminator_Forall, normalize_bools_Forall; try done.
  unfold escape_quotes. apply replace_Forall; [done|]. by apply strip_Forall.
Qed.

(** C11: A row whose backslashes all start [\'] escapes comes out of the loop
    body without any backslash. *)
Theorem transform_row_no_backslash table_name line row :
  quote_escapes_only line = true -> transform_row table_name line = Some row ->
  Forall (fun c => c <> BACKSLASH) row.
Proof.
  intros Hq. unfold transform_row. case_decide; [done|]. intros [= <-].
  apply strip_terminator_Forall, normalize_bools_Forall; try decide_closed.
  by apply escape_quotes_no_backslash, quote_escapes_only_strip.
Qed.

(** C12: On text whose backslashes all start [\'] escapes, escaping twice is
    escaping once: the doubled quotes of the first pass are left alone. *)
Theorem escape_quotes_idem s :
  quote_escapes_only s = true -> escape_quotes (escape_quotes s) = escape_quotes s.
Proof.
  intros Hq. apply replace_id; [eval_lits; done|]. intros (k1 & k2 & Heq).
  pose proof (escape_quotes_no_backslash s Hq) as Hno. rewrite Heq in Hno.
  apply Forall_app in Hno as [_ Hno]. eval_lits. by inversion Hno.
Qed.

(** ** Rows of the dump *)

(** A prefix without a [\'] escape goes through line 58 unchanged when a
    backslash follows it. *)
Lemma escape_quotes_prefix p s :
  ~ ‹"\'"› `infix_of` p ->
  escape_quotes (p ++ BACKSLASH :: s) = p ++ escape_quotes (BACKSLASH :: s).
Proof.
  unfold escape_quotes. eval_lits. induction p as [|c r IH]; intros Hp; [done|].
  rewrite <-app_comm_cons, replace_miss; [|done|].
  - rewrite IH; [done|]. intros Hi. apply Hp. by apply infix_cons_r.
  - intros [k Hk]. destruct r as [|c' r']; simpl in Hk; simplify_eq.
    apply Hp. exists [], r'. done.
Qed.

(** C13: MySQL escapes a backslash as [\\].  Wherever a quoted value
    ends in a backslash, its last two characters and the closing quote,
    [\\'], come out of line 58 as [\''], an escaped quote: the closing
    quote of the literal is gone, whatever precedes and follows. *)
Theorem escape_quotes_escaped_backslash p s :
  ~ ‹"\'"› `infix_of` p ->
  escape_quotes (p ++ ‹"\\'"› ++ s) = p ++ ‹"\''"› ++ escape_quotes s.
Proof.
  intros Hp. eval_lits. cbn [app].
  pose proof (escape_quotes_prefix p (92%N :: 39%N :: s) Hp) as E. unfold BACKSLASH in E.
  rewrite E.
  f_equal. unfold escape_quotes. eval_lits.
  rewrite replace_miss; [|done|by intros [k Hk]].
  rewrite replace_hit; [done|done|by exists s].
Qed.

(** ** Witnesses *)

Lemma strip_terminator_drop_witness :
  (44%N = 44%N \/ 44%N = 59%N) /\
  strip_terminator (‹"(1, 'a')"› ++ [44%N]) = ‹"(1, 'a')"›.
Proof. split; [by left|]. apply strip_terminator_drop. by left. Defined.

Lemma transform_row_no_backslash_witness :
  quote_escapes_only ‹"('it\'s', 1, 'x'),"› = true /\
  transform_row ‹"Companies"› ‹"('it\'s', 1, 'x'),"› = Some ‹"('it''s', true, 'x')"› /\
  Forall (fun c => c <> BACKSLASH) ‹"('it''s', true, 'x')"›.
Proof.
  assert (H1 : quote_escapes_only ‹"('it\'s', 1, 'x'),"› = true) by reflexivity.
  assert (H2 : transform_row ‹"Companies"› ‹"('it\'s', 1, 'x'),"› = Some ‹"('it''s', true, 'x')"›)
    by (vm_compute; reflexivity).
  split; [exact H1|split; [exact H2|]].
  exact (transform_row_no_backslash _ _ _ H1 H2).
Defined.

Lemma escape_quotes_idem_witness :
  quote_escapes_only ‹"'it\'s'"› = true /\
  escape_quotes (escape_quotes ‹"'it\'s'"›) = escape_quotes ‹"'it\'s'"›.
Proof.
  assert (H : quote_escapes_only ‹"'it\'s'"› = true) by reflexivity.
  split; [exact H|]. exact (escape_quotes_idem _ H).
Defined.

Lemma escape_quotes_escaped_backslash_witness :
  ~ ‹"\'"› `infix_of` ‹"(7, 'C:"› /\
  escape_quotes (‹"(7, 'C:"› ++ ‹"\\'"› ++ ‹", 'x'),"›) =
    ‹"(7, 'C:"› ++ ‹"\''"› ++ escape_quotes ‹", 'x'),"›.
Proof.
  assert (H : ~ ‹"\'"› `infix_of` ‹"(7, 'C:"›) by decide_closed.
  split; [exact H|]. exact (escape_quotes_escaped_backslash _ _ H).
Defined.
