(* ===== verification/Batch.v ===== *)
(** * Batching and writing: [process_table] and [write_batch]

    The loop of [process_table] (lines 45-84) keeps [current_batch] and
    [part]; its writes go to the file system, a finite map from file
    names to contents that the state carries explicitly ([files]).
    [loop_body] is one iteration (lines 52-81), [run_batches] the loop
    and the final flush (lines 83-84), [process_table] adds the slice of
    line 42 and the header of lines 49-50.  The abstract specification
    is [chunks]: the transformed rows cut into batches of
    [max 1 batch_size] from the left, written by [write_parts] as parts
    [1, 2, ...]; [run_batches_refines] proves the loop implements it. *)

From S2P Require Import Prelude Scan PyStr PySlice PyInt PyRe Row.

(** ** [write_batch] (lines 86-92) *)

(** [f'{prefix}_part{part}.sql'] *)
Definition part_filename (prefix : pystr) (part : Z) : pystr :=
  prefix ++ ‹"_part"› ++ str_int part ++ ‹".sql"›.

(** What the three [f.write] calls leave in the file opened with ['w']. *)
Definition batch_contents (header : pystr) (rows : list pystr) : pystr :=
  header ++ join (‹","› ++ [LF]) rows ++ ‹";"› ++ [LF].

Definition write_batch (prefix : pystr) (part : Z) (header : pystr) (rows : list pystr)
    (files : gmap pystr pystr) : gmap pystr pystr :=
  <[part_filename prefix part := batch_contents header rows]> files.

(** ** The loop of [process_table] *)

Record loop_state := {
  current_batch : list pystr;
  part : Z;
  files : gmap pystr pystr
}.

(** Lines 52-81: transform the line, append it, and flush a full batch. *)
Definition loop_body (batch_size : Z) (table_name output_prefix insert_header : pystr)
    (st : loop_state) (line : pystr) : loop_state :=
  match transform_row table_name line with
  | None => st
  | Some row =>
      let batch := current_batch st ++ [row] in
      if (batch_size <=? Z.of_nat (length batch))%Z
      then {| current_batch := [];
              part := part st + 1;
              files := write_batch output_prefix (part st) insert_header batch (files st) |}
      else {| current_batch := batch; part := part st; files := files st |}
  end.

(** Lines 83-84: the rest of the rows, if any. *)
Definition flush (output_prefix insert_header : pystr) (st : loop_state) : gmap pystr pystr :=
  if decide (current_batch st = []) then files st
  else write_batch output_prefix (part st) insert_header (current_batch st) (files st).

(** Lines 45-84, from [current_batch = []] and [part = 1]. *)
Definition run_batches (batch_size : Z) (table_name output_prefix insert_header : pystr)
    (data_lines : list pystr) (files0 : gmap pystr pystr) : gmap pystr pystr :=
  flush output_prefix insert_header
    (foldl (loop_body batch_size table_name output_prefix insert_header)
       {| current_batch := []; part := 1; files := files0 |} data_lines).

(** Lines 49-50 *)
Definition make_insert_header (table_quoted : pystr) (columns : list pystr) : pystr :=
  ‹"INSERT INTO "› ++ table_quoted ++ ‹" ("› ++ join ‹", "› columns ++ ‹") VALUES"› ++ [LF].

(** Lines 28-84 *)
Definition process_table (lines : list pystr) (start_line end_line : Z)
    (table_name table_quoted : pystr) (columns : list pystr) (output_prefix : pystr)
    (files0 : gmap pystr pystr) : gmap pystr pystr :=
  let insert_line_idx := (start_line - 1)%Z in
  let data_lines := py_slice lines (Some (insert_line_idx + 1)%Z) (Some end_line) in
  let batch_size := 50%Z in
  run_batches batch_size table_name output_prefix (make_insert_header table_quoted columns)
    data_lines files0.

(** ** The specification: chunks written as numbered parts *)

Section Chunks.
Context {A : Type}.

(** Batches of [S k] elements from the left, the last one shorter. *)
Definition chunk_step (k : nat) (xs : list A) : list (list A) * option (list A) :=
  match xs with
  | [] => ([], None)
  | _ :: _ => ([take (S k) xs], Some (drop (S k) xs))
  end.

Lemma chunk_step_shorter k xs o r : chunk_step k xs = (o, Some r) -> length r < length xs.
Proof. destruct xs; simpl; [done|]. intros [= _ <-]. rewrite length_drop. simpl. lia. Qed.

Definition chunk_scanner (k : nat) : Scanner A (list A) :=
  {| step := chunk_step k; step_shorter := chunk_step_shorter k |}.

Definition chunks (k : nat) (xs : list A) : list (list A) := scan (chunk_scanner k) xs.

Lemma chunks_nil k : chunks k [] = [].
Proof. unfold chunks. by rewrite scan_unfold. Qed.

Lemma chunks_cons k xs :
  xs <> [] -> chunks k xs = take (S k) xs :: chunks k (drop (S k) xs).
Proof. intros Hxs. unfold chunks at 1. rewrite scan_unfold. by destruct xs. Qed.

Lemma chunks_full k xs ys : length xs = S k -> chunks k (xs ++ ys) = xs :: chunks k ys.
Proof.
  intros Hlen. rewrite chunks_cons by (destruct xs; simpl in *; congruence).
  rewrite take_app_length', drop_app_length' by done. done.
Qed.

Lemma chunks_small k xs : xs <> [] -> length xs <= S k -> chunks k xs = [xs].
Proof.
  intros Hne Hlen. rewrite chunks_cons by done.
  rewrite take_ge, drop_ge, chunks_nil by done. done.
Qed.

Lemma chunks_nil_iff k xs : chunks k xs = [] <-> xs = [].
Proof.
  split; [|intros ->; apply chunks_nil].
  destruct xs as [|x xs]; [done|]. by rewrite chunks_cons.
Qed.

(** Cutting loses, duplicates and reorders nothing. *)
Lemma concat_chunks k xs : concat (chunks k xs) = xs.
Proof.
  unfold chunks. apply (scan_ind (chunk_scanner k) (fun xs o => concat o = xs)).
  intros [|x ys]; simpl; [done|]. intros IH. by rewrite IH, take_drop.
Qed.

(** Every chunk has between 1 and [S k] elements, and every one but the
    last has exactly [S k]. *)
Lemma chunks_sizes k xs i c :
  chunks k xs !! i = Some c ->
  0 < length c <= S k /\ (S i < length (chunks k xs) -> length c = S k).
Proof.
  revert i c. unfold chunks.
  apply (scan_ind (chunk_scanner k) (fun xs o => forall i c, o !! i = Some c ->
    0 < length c <= S k /\ (S i < length o -> length c = S k))).
  intros [|x ys]; simpl; [done|]. intros IH [|i] c Hc; simpl in Hc.
  - injection Hc as <-. simpl. rewrite length_take. split; [lia|]. intros Hlen.
    destruct (decide (length ys <= k)); [|lia].
    rewrite drop_ge in Hlen by lia. fold (chunks k []) in Hlen.
    rewrite chunks_nil in Hlen. simpl in Hlen. lia.
  - destruct (IH i c Hc) as [? ?]. simpl. split; [done|lia].
Qed.

(** There are [ceil (length xs / S k)] chunks. *)
Lemma length_chunks k xs : length (chunks k xs) = (length xs + k) / S k.
Proof.
  unfold chunks. apply (scan_ind (chunk_scanner k) (fun xs o => length o = (length xs + k) / S k)).
  intros [|x ys]; cbn [step chunk_scanner chunk_step];
    [symmetry; apply Nat.div_small; simpl; lia|].
  intros IH. rewrite length_app, IH, length_drop. cbn [length].
  destruct (decide (length ys <= k)).
  - replace (S (length ys) - S k + k) with k by lia. rewrite Nat.div_small by lia.
    rewrite Nat.add_0_r. apply (Nat.div_unique _ _ 1 (length ys)); lia.
  - replace (S (length ys) + k) with ((S (length ys) - S k + k) + 1 * S k) by lia.
    rewrite Nat.div_add by lia. lia.
Qed.

(** A property of every element holds in every chunk. *)
Lemma chunks_Forall (P : A -> Prop) k xs : Forall P xs -> Forall (Forall P) (chunks k xs).
Proof. rewrite <-(concat_chunks k xs) at 1. by intros ?%Forall_concat. Qed.

End Chunks.

(** The batch size [b] of the loop cuts batches of [max 1 b] rows. *)
Definition batch_pred (batch_size : Z) : nat := Z.to_nat (Z.max 1 batch_size) - 1.

Fixpoint write_parts (output_prefix insert_header : pystr) (part : Z)
    (batches : list (list pystr)) (files : gmap pystr pystr) : gmap pystr pystr :=
  match batches with
  | [] => files
  | b :: bs => write_parts output_prefix insert_header (part + 1) bs
                 (write_batch output_prefix part insert_header b files)
  end.

(** ** Refinement: the loop writes the chunks of the transformed rows *)

Section Refinement.
Context (batch_size : Z) (table_name output_prefix insert_header : pystr).

#[local] Abbreviation body := (loop_body batch_size table_name output_prefix insert_header).
#[local] Abbreviation k := (batch_pred batch_size).

Lemma loop_body_skip st line :
  transform_row table_name line = None -> body st line = st.
Proof. unfold loop_body. by intros ->. Qed.

Lemma loop_body_full cb p fs line row :
  transform_row table_name line = Some row ->
  (batch_size <= Z.of_nat (length (cb ++ [row])))%Z ->
  body {| current_batch := cb; part := p; files := fs |} line =
    {| current_batch := []; part := p + 1;
       files := write_batch output_prefix p insert_header (cb ++ [row]) fs |}.
Proof. unfold loop_body. intros -> Hb. simpl. by rewrite (proj2 (Z.leb_le _ _) Hb). Qed.

Lemma loop_body_append cb p fs line row :
  transform_row table_name line = Some row ->
  (Z.of_nat (length (cb ++ [row])) < batch_size)%Z ->
  body {| current_batch := cb; part := p; files := fs |} line =
    {| current_batch := cb ++ [row]; part := p; files := fs |}.
Proof.
  unfold loop_body. intros -> Hb. simpl. by rewrite (proj2 (Z.leb_gt _ _) Hb).
Qed.

(** From any state whose batch is not yet full, the loop and the final
    flush write the chunks of the pending rows followed by the
    transformed lines. *)
Lemma loop_flush lines cb p fs :
  length cb <= k ->
  flush output_prefix insert_header
    (foldl body {| current_batch := cb; part := p; files := fs |} lines) =
  write_parts output_prefix insert_header p
    (chunks k (cb ++ omap (transform_row table_name) lines)) fs.
Proof.
  unfold batch_pred. revert cb p fs.
  induction lines as [|line lines IH]; intros cb p fs Hcb.
  - simpl. rewrite app_nil_r. unfold flush. simpl. case_decide as Hnil.
    + subst. by rewrite chunks_nil.
    + rewrite chunks_small by (done || lia). done.
  - cbn [foldl]. set (rows := omap (transform_row table_name) lines).
    destruct (transform_row table_name line) as [row|] eqn:Ht.
    + assert (Hom : omap (transform_row table_name) (line :: lines) = [row] ++ rows)
        by (simpl; by rewrite Ht).
      rewrite Hom, app_assoc.
      destruct (Z.leb_spec batch_size (Z.of_nat (length (cb ++ [row])))) as [Hb|Hb];
        rewrite length_app in Hb; simpl in Hb.
      * rewrite (loop_body_full cb p fs line row Ht) by (rewrite ?length_app; simpl; lia).
        rewrite IH by (simpl; lia).
        rewrite (chunks_full _ (cb ++ [row])) by (rewrite ?length_app; simpl; lia). done.
      * rewrite (loop_body_append cb p fs line row Ht) by (rewrite ?length_app; simpl; lia).
        apply IH. rewrite length_app. simpl. lia.
    + assert (Hom : omap (transform_row table_name) (line :: lines) = rows)
        by (simpl; by rewrite Ht).
      rewrite Hom, (loop_body_skip _ line Ht). by apply IH.
Qed.

(** C1: The loop of lines 45-84 refines the specification: the files it
    writes are the chunks of [max 1 batch_size] transformed rows,
    numbered from 1. *)
Theorem run_batches_refines lines files0 :
  run_batches batch_size table_name output_prefix insert_header lines files0 =
  write_parts output_prefix insert_header 1
    (chunks (batch_pred batch_size) (omap (transform_row table_name) lines)) files0.
Proof. apply (loop_flush lines [] 1 files0). simpl. lia. Qed.

Lemma run_batches_chunks lines files0 :
  run_batches batch_size table_name output_prefix insert_header lines files0 =
  write_parts output_prefix insert_header 1
    (chunks (batch_pred batch_size) (omap (transform_row table_name) lines)) files0.
Proof. apply (loop_flush lines [] 1 files0). simpl. lia. Qed.

End Refinement.

(** ** The files written *)

Lemma part_filename_inj prefix a b :
  part_filename prefix a = part_filename prefix b -> a = b.
Proof.
  unfold part_filename. intros H.
  apply app_inv_head, app_inv_head, app_inv_tail in H. by apply str_int_inj.
Qed.

Lemma write_parts_other prefix header p bs files name :
  (forall j, j < length bs -> name <> part_filename prefix (p + Z.of_nat j)) ->
  write_parts prefix header p bs files !! name = files !! name.
Proof.
  revert p files. induction bs as [|b bs IH]; intros p files Hname; [done|]. simpl.
  rewrite IH.
  - unfold write_batch. rewrite lookup_insert_ne; [done|]. intros Heq.
    apply (Hname 0); [simpl; lia|]. by rewrite Z.add_0_r.
  - intros j Hj Heq. apply (Hname (S j)); [simpl; lia|]. rewrite Heq. f_equal. lia.
Qed.

Lemma write_parts_part prefix header p bs files j b :
  bs !! j = Some b ->
  write_parts prefix header p bs files !! part_filename prefix (p + Z.of_nat j) =
    Some (batch_contents header b).
Proof.
  revert p files j. induction bs as [|b' bs IH]; intros p files [|j] Hj; try done.
  - injection Hj as ->. simpl. rewrite write_parts_other.
    + unfold write_batch. rewrite Z.add_0_r. apply lookup_insert_eq.
    + intros j _ Heq. apply part_filename_inj in Heq. lia.
  - simpl. replace (p + Z.of_nat (S j))%Z with (p + 1 + Z.of_nat j)%Z by lia. by apply IH.
Qed.

Lemma batch_pred_size b : S (batch_pred b) = Z.to_nat (Z.max 1 b).
Proof. unfold batch_pred. lia. Qed.

(** ** What [run_batches] and [process_table] produce *)

(** C2: The loop writes the transformed rows in order, nothing lost or
    repeated, in batches of [max 1 batch_size] rows except the last,
    which has between one and that many. *)
Theorem run_batches_batches batch_size table_name prefix header lines files0 :
  exists batches,
    run_batches batch_size table_name prefix header lines files0 =
      write_parts prefix header 1 batches files0 /\
    concat batches = omap (transform_row table_name) lines /\
    (forall j c, batches !! j = Some c ->
       1 <= length c <= Z.to_nat (Z.max 1 batch_size) /\
       (S j < length batches -> length c = Z.to_nat (Z.max 1 batch_size))).
Proof.
  exists (chunks (batch_pred batch_size) (omap (transform_row table_name) lines)).
  split_and!; [apply run_batches_chunks|apply concat_chunks|].
  intros j c Hc. rewrite <-batch_pred_size. by apply chunks_sizes.
Qed.

(** C3: The loop writes the parts [1 .. n] with [n] the ceiling of the
    number of rows over [max 1 batch_size], and no other file. *)
Theorem run_batches_files batch_size table_name prefix header lines files0 :
  let n := (length (omap (transform_row table_name) lines) + batch_pred batch_size)
             / Z.to_nat (Z.max 1 batch_size) in
  (forall j, j < n -> exists c,
     run_batches batch_size table_name prefix header lines files0
       !! part_filename prefix (1 + Z.of_nat j) = Some (batch_contents header c)) /\
  (forall name, (forall j, j < n -> name <> part_filename prefix (1 + Z.of_nat j)) ->
     run_batches batch_size table_name prefix header lines files0 !! name = files0 !! name).
Proof.
  intros n. rewrite run_batches_chunks.
  assert (Hn : n = length (chunks (batch_pred batch_size)
                             (omap (transform_row table_name) lines))).
  { by rewrite length_chunks, batch_pred_size. }
  rewrite Hn. split.
  - intros j Hj. destruct (lookup_lt_is_Some_2 _ _ Hj) as [c Hc].
    exists c. by apply write_parts_part.
  - intros name Hname. by apply write_parts_other.
Qed.

Lemma process_table_chunks lines start_line end_line table_name table_quoted columns
    prefix files0 :
  (0 <= start_line)%Z -> (0 <= end_line)%Z ->
  process_table lines start_line end_line table_name table_quoted columns prefix files0 =
  write_parts prefix (make_insert_header table_quoted columns) 1
    (chunks 49 (omap (transform_row table_name)
       (take (Z.to_nat end_line - Z.to_nat start_line) (drop (Z.to_nat start_line) lines))))
    files0.
Proof.
  intros Hs He. unfold process_table.
  replace (start_line - 1 + 1)%Z with start_line by lia.
  by rewrite py_slice_nonneg, run_batches_chunks.
Qed.

(** C4: [process_table] writes the chunks of 50 transformed rows of the
    lines after [start_line] up to [end_line] (1-based, clamped at the
    end of the file) as parts 1, 2, ... and touches no other file. *)
Theorem process_table_spec lines start_line end_line table_name table_quoted columns
    prefix files0 :
  (0 <= start_line)%Z -> (0 <= end_line)%Z ->
  let data := take (Z.to_nat end_line - Z.to_nat start_line) (drop (Z.to_nat start_line) lines) in
  let batches := chunks 49 (omap (transform_row table_name) data) in
  let out := process_table lines start_line end_line table_name table_quoted columns
               prefix files0 in
  (forall j c, batches !! j = Some c ->
     out !! part_filename prefix (1 + Z.of_nat j) =
       Some (batch_contents (make_insert_header table_quoted columns) c)) /\
  (forall name, (forall j, j < length batches -> name <> part_filename prefix (1 + Z.of_nat j)) ->
     out !! name = files0 !! name).
Proof.
  intros Hs He data batches out. unfold out.
  rewrite process_table_chunks by done. fold data. split.
  - intros j c Hc. by apply write_parts_part.
  - intros name Hname. by apply write_parts_other.
Qed.

(** ** Witnesses *)

Lemma process_table_spec_witness :
  (0 <= 1)%Z /\ (0 <= 3)%Z /\
  process_table [‹"INSERT INTO"›; ‹"(1, 'a', 1, 'b'),"›; ‹"(2, 'c', 0, 'd');"›] 1 3
    ‹"Companies"› (dq "Companies") [dq "id"] ‹"seed"› ∅ !! part_filename ‹"seed"› 1 =
  Some (batch_contents (make_insert_header (dq "Companies") [dq "id"])
          [‹"(1, 'a', true, 'b')"›; ‹"(2, 'c', false, 'd')"›]).
Proof.
  split; [lia|split; [lia|]].
  destruct (process_table_spec [‹"INSERT INTO"›; ‹"(1, 'a', 1, 'b'),"›; ‹"(2, 'c', 0, 'd');"›]
              1 3 ‹"Companies"› (dq "Companies") [dq "id"] ‹"seed"› ∅) as [H1 _];
    [lia|lia|].
  apply (H1 0). vm_compute. reflexivity.
Defined.
