(* ===== verification/BatchStep.v ===== *)
(** * The loop of [process_table] as a transition system

    One transition of [loop_step] is one iteration of the [for] loop of
    lines 52-81: it consumes the next line of [data_lines] and runs
    [loop_body] on the state.  [reachable] is the reflexive-transitive
    closure from the state of lines 45-46 ([current_batch = []],
    [part = 1]).  The invariant [loop_inv], proved by induction on the
    transitions, describes every intermediate state: what the loop has
    written is exactly the full batches of the rows read so far, and the
    pending rows are fewer than a batch.  So if the program stops at any
    point of the loop, the part files on disk are complete batches. *)

From S2P Require Import Prelude Scan PyStr PySlice PyInt PyRe Row Batch.

Section Step.
Context (batch_size : Z) (table_name output_prefix insert_header : pystr).
Context (data_lines : list pystr) (files0 : gmap pystr pystr).

#[local] Abbreviation body := (loop_body batch_size table_name output_prefix insert_header).
#[local] Abbreviation k := (batch_pred batch_size).

(** The rest of [data_lines] and the loop state. *)
Definition config : Type := list pystr * loop_state.

Inductive loop_step : config -> config -> Prop :=
  | loop_iter line rest st : loop_step (line :: rest, st) (rest, body st line).

Inductive reachable : config -> Prop :=
  | reach_init : reachable (data_lines, {| current_batch := []; part := 1; files := files0 |})
  | reach_step c c' : reachable c -> loop_step c c' -> reachable c'.

(** After reading [consumed], the full batches [done] are written as parts
    [1 .. length done] and the rows after them are pending. *)
Definition loop_inv (c : config) : Prop :=
  let '(rest, st) := c in
  exists consumed done,
    data_lines = consumed ++ rest /\
    omap (transform_row table_name) consumed = concat done ++ current_batch st /\
    Forall (fun b => length b = S k) done /\
    length (current_batch st) <= k /\
    part st = (1 + Z.of_nat (length done))%Z /\
    files st = write_parts output_prefix insert_header 1 done files0.

Lemma write_parts_snoc p bs b files :
  write_parts output_prefix insert_header p (bs ++ [b]) files =
  write_batch output_prefix (p + Z.of_nat (length bs)) insert_header b
    (write_parts output_prefix insert_header p bs files).
Proof.
  revert p files. induction bs as [|b' bs IH]; intros p files; simpl.
  - by rewrite Z.add_0_r.
  - rewrite IH. by replace (p + Z.of_nat (S (length bs)))%Z with (p + 1 + Z.of_nat (length bs))%Z by lia.
Qed.

Lemma omap_snoc_row consumed line :
  omap (transform_row table_name) (consumed ++ [line]) =
  omap (transform_row table_name) consumed ++ default [] ((fun r => [r]) <$> transform_row table_name line).
Proof.
  rewrite omap_app. f_equal. simpl. by destruct (transform_row table_name line).
Qed.

(** One iteration keeps the invariant. *)
Lemma loop_step_inv c c' : loop_inv c -> loop_step c c' -> loop_inv c'.
Proof.
  intros Hinv Hstep. destruct Hstep as [line rest st].
  destruct Hinv as (consumed & done & Hdata & Hrows & Hfull & Hlen & Hpart & Hfiles).
  exists (consumed ++ [line]).
  unfold batch_pred in *.
  destruct (transform_row table_name line) as [row|] eqn:Ht.
  - destruct (Z.leb_spec batch_size (Z.of_nat (length (current_batch st ++ [row])))) as [Hb|Hb];
      rewrite length_app in Hb; simpl in Hb.
    + exists (done ++ [current_batch st ++ [row]]). unfold loop_body. rewrite Ht.
      rewrite (proj2 (Z.leb_le _ _)) by (rewrite length_app; simpl; lia). cbn.
      rewrite omap_snoc_row, Ht, Hrows, concat_app. simpl.
      split_and!; [by rewrite Hdata, <-app_assoc|by rewrite !app_nil_r, <-app_assoc|
        apply Forall_app; split; [done|constructor; [rewrite length_app; simpl; lia|done]]|
        lia|rewrite length_app, Hpart; simpl; lia|].
      rewrite write_parts_snoc, Hfiles. do 2 f_equal. lia.
    + exists done. unfold loop_body. rewrite Ht.
      rewrite (proj2 (Z.leb_gt _ _)) by (rewrite length_app; simpl; lia). cbn.
      rewrite omap_snoc_row, Ht, Hrows. simpl.
      split_and!; [by rewrite Hdata, <-app_assoc|by rewrite <-app_assoc|done|
        rewrite length_app; simpl; lia|done|done].
  - exists done. rewrite (loop_body_skip _ _ _ _ _ _ Ht).
    rewrite omap_snoc_row, Ht. simpl. rewrite app_nil_r.
    split_and!; [by rewrite Hdata, <-app_assoc|done..].
Qed.

(** C18: Every state the loop of lines 52-81 reaches, whatever the
    lines, satisfies the invariant: the part files written so far are
    exactly the full batches of [max 1 batch_size] rows read so far,
    numbered [1 .. n] with [part = n + 1], and fewer than a batch of rows
    is pending in [current_batch], after them in order. *)
Theorem reachable_loop_inv c : reachable c -> loop_inv c.
Proof.
  induction 1 as [|c c' _ IH Hstep].
  - exists [], []. simpl. split_and!; [done|done|constructor|lia|done|done].
  - by apply (loop_step_inv c).
Qed.

#[local] Abbreviation init := {| current_batch := []; part := 1; files := files0 |}.

(** The reachable configurations are those after the first [n] lines. *)
Lemma reachable_iff c :
  reachable c <->
  exists n, n <= length data_lines /\
    c = (drop n data_lines, foldl body init (take n data_lines)).
Proof.
  split.
  - induction 1 as [|c c' _ (n & Hn & ->) Hstep].
    + exists 0. split; [lia|]. by rewrite drop_0.
    + inversion Hstep as [line rest st Heq Hc']; subst.
      assert (Hline : data_lines !! n = Some line)
        by (pose proof (lookup_drop data_lines n 0) as E; rewrite <-Heq, Nat.add_0_r in E; by rewrite <-E).
      exists (S n). split; [apply lookup_lt_Some in Hline; lia|].
      rewrite (take_S_r _ _ _ Hline), foldl_app.
      replace (S n) with (n + 1) by lia. by rewrite <-drop_drop, <-Heq.
  - intros (n & Hn & ->). induction n as [|n IH].
    + rewrite drop_0. apply reach_init.
    + destruct (lookup_lt_is_Some_2 data_lines n ltac:(lia)) as [line Hline].
      eapply reach_step; [apply IH; lia|].
      rewrite (drop_S _ line) by done. rewrite (take_S_r _ _ line) by done.
      rewrite foldl_app. constructor.
Qed.


End Step.

(** ** Witnesses *)

Lemma reachable_loop_inv_witness :
  let d := [‹"(1, 'a'),"›; ‹"(2, 'b'),"›; ‹"(3, 'c');"›] in
  let c := ([‹"(3, 'c');"›],
            foldl (loop_body 2 ‹"T"› ‹"p"› ‹"H"›)
              {| current_batch := []; part := 1; files := ∅ |} (take 2 d)) in
  reachable 2 ‹"T"› ‹"p"› ‹"H"› d ∅ c /\ loop_inv 2 ‹"T"› ‹"p"› ‹"H"› d ∅ c.
Proof.
  intros d c.
  assert (H : reachable 2 ‹"T"› ‹"p"› ‹"H"› d ∅ c)
    by (apply reachable_iff; exists 2; split; [simpl; lia|reflexivity]).
  split; [exact H|]. exact (reachable_loop_inv _ _ _ _ _ _ _ H).
Defined.
