(* ===== verification/Program.v ===== *)
(** * [process_file] (lines 4-26) on a file system of texts

    The text-level model of the program: the file system maps names to
    their text, every write succeeds, and [process_file] reads the dump
    ([FileNotFoundError] when it is missing), cuts it with [readlines]
    and runs [process_tables]: [process_table] for [Companies] and then
    for [Questions] on the files the first call left.  [Main] runs the
    same [process_tables] on the byte-level world of [PyIO] and proves
    that it refines this model. *)

From S2P Require Import Prelude Scan Utf8 PyIO PyStr PySlice PyInt PyRe Row Batch.

(** ** [process_file] *)

Definition input_file : pystr := ‹"u644556995_job.sql"›.

Definition companies_columns : list pystr :=
  [dq "id"; dq "name"; dq "date"; dq "solutions_available"; dq "created_at";
   dq "updated_at"].

Definition questions_cols : list pystr :=
  [dq "id"; dq "company_id"; dq "title"; dq "google_doc_link"; dq "problem_statement";
   dq "solution_cpp"; dq "solution_python"; dq "solution_java";
   dq "pregiven_code_cpp"; dq "pregiven_code_python"; dq "pregiven_code_java";
   dq "difficulty"; dq "question_type"; dq "premium_required";
   dq "created_at"; dq "updated_at"; dq "solution_code"; dq "solution";
   dq "pregiven_code"; dq "input_test_case"; dq "output_test_case"; dq "lc_tags"].

(** Lines 10-26: [process_table] for [Companies], then for [Questions]
    on the files the first call left. *)
Definition process_tables (lines : list pystr) (files : gmap pystr pystr) : gmap pystr pystr :=
  let files := process_table lines 769 1713 ‹"Companies"› (dq "Companies")
                 companies_columns ‹"companies_seed"› files in
  process_table lines 31569 34690 ‹"Questions"› (dq "Questions")
    questions_cols ‹"questions_seed"› files.

(** Lines 4-26 on a file system of texts: the dump is looked up (a
    missing file is [FileNotFoundError]), cut into lines, and the two
    tables are processed. *)
Definition process_file (files : gmap pystr pystr) : py_error + gmap pystr pystr :=
  match files !! input_file with
  | None => inl (FileNotFoundError input_file)
  | Some text => inr (process_tables (readlines text) files)
  end.

(** ** What [process_file] writes *)

Lemma part_filename_head_neq c p j d r :
  c <> d -> d :: r <> part_filename (c :: p) j.
Proof. intros Hcd Heq. by injection Heq. Qed.

Lemma companies_not_questions j j' :
  part_filename ‹"companies_seed"› j <> part_filename ‹"questions_seed"› j'.
Proof.
  unfold part_filename at 1. eval_lits. apply part_filename_head_neq. discriminate.
Qed.

(** The rows each table gets: the lines after line 769 up to 1713 and
    after 31569 up to 34690, transformed and cut into chunks of 50. *)
Abbreviation companies_batches lines :=
  (chunks 49 (omap (transform_row ‹"Companies"›)
    (take (Z.to_nat 1713 - Z.to_nat 769) (drop (Z.to_nat 769) lines)))).
Abbreviation questions_batches lines :=
  (chunks 49 (omap (transform_row ‹"Questions"›)
    (take (Z.to_nat 34690 - Z.to_nat 31569) (drop (Z.to_nat 31569) lines)))).

Lemma companies_chunks lines files :
  process_table lines 769 1713 ‹"Companies"› (dq "Companies") companies_columns
    ‹"companies_seed"› files =
  write_parts ‹"companies_seed"› (make_insert_header (dq "Companies") companies_columns) 1
    (companies_batches lines) files.
Proof. rewrite process_table_chunks by lia. reflexivity. Qed.

Lemma questions_chunks lines files :
  process_table lines 31569 34690 ‹"Questions"› (dq "Questions") questions_cols
    ‹"questions_seed"› files =
  write_parts ‹"questions_seed"› (make_insert_header (dq "Questions") questions_cols) 1
    (questions_batches lines) files.
Proof. rewrite process_table_chunks by lia. reflexivity. Qed.

Lemma process_file_run (files : gmap pystr pystr) text :
  files !! input_file = Some text ->
  process_file files =
    inr (write_parts ‹"questions_seed"› (make_insert_header (dq "Questions") questions_cols) 1
           (questions_batches (readlines text))
           (write_parts ‹"companies_seed"› (make_insert_header (dq "Companies") companies_columns) 1
              (companies_batches (readlines text)) files)).
Proof.
  intros Hin. unfold process_file, process_tables. rewrite Hin. cbv zeta.
  by rewrite companies_chunks, questions_chunks.
Qed.

(** C5: The whole run: the [Companies] and [Questions] batches are written
    as [companies_seed_part<j>.sql] and [questions_seed_part<j>.sql] for
    [j = 1, 2, ...]; every other file, the dump included, keeps its
    contents. *)
Theorem process_file_spec files text :
  files !! input_file = Some text ->
  exists out, process_file files = inr out /\
    (forall j c, companies_batches (readlines text) !! j = Some c ->
       out !! part_filename ‹"companies_seed"› (1 + Z.of_nat j) =
         Some (batch_contents (make_insert_header (dq "Companies") companies_columns) c)) /\
    (forall j c, questions_batches (readlines text) !! j = Some c ->
       out !! part_filename ‹"questions_seed"› (1 + Z.of_nat j) =
         Some (batch_contents (make_insert_header (dq "Questions") questions_cols) c)) /\
    (forall name,
       (forall j, j < length (companies_batches (readlines text)) ->
          name <> part_filename ‹"companies_seed"› (1 + Z.of_nat j)) ->
       (forall j, j < length (questions_batches (readlines text)) ->
          name <> part_filename ‹"questions_seed"› (1 + Z.of_nat j)) ->
       out !! name = files !! name).
Proof.
  intros Hin. rewrite (process_file_run files text Hin). eexists. split; [reflexivity|].
  split; [|split].
  - intros j c Hj. rewrite write_parts_other; [by apply write_parts_part|].
    intros j' _. apply companies_not_questions.
  - intros j c Hj. by apply write_parts_part.
  - intros name Hn1 Hn2. by rewrite !write_parts_other.
Qed.

Lemma chunks_49_bound (rows : list pystr) m :
  length rows <= m -> length (chunks 49 rows) <= (m + 49) / 50.
Proof. intros Hm. rewrite length_chunks. apply Nat.Div0.div_le_mono. lia. Qed.

Lemma omap_take_drop_length (f : pystr -> option pystr) m k lines :
  length (omap f (take m (drop k lines))) <= m.
Proof.
  assert (H : forall l, length (omap f l) <= length l).
  { induction l as [|x l IH]; simpl; [lia|].
    destruct (f x); simpl; change (list_omap _ _ f l) with (omap f l); lia. }
  pose proof (H (take m (drop k lines))) as Hl. rewrite length_take in Hl. lia.
Qed.

(** The row ranges give at most 19 [Companies] batches (944 lines, 50
    rows per batch) and at most 63 [Questions] batches (3121 lines). *)
Lemma part_counts lines :
  length (companies_batches lines) <= 19 /\ length (questions_batches lines) <= 63.
Proof.
  split; (etransitivity; [apply chunks_49_bound, omap_take_drop_length|]);
    rewrite <-!Z2Nat.inj_sub by lia; vm_compute; lia.
Qed.

Lemma write_parts_beyond prefix header bs files j n :
  length bs <= n -> ~ (1 <= j <= Z.of_nat n)%Z ->
  write_parts prefix header 1 bs files !! part_filename prefix j = files !! part_filename prefix j.
Proof. intros Hn Hj. apply write_parts_other. intros j' Hj' Heq%part_filename_inj. lia. Qed.

(** C6: Whatever the dump holds, a run of [process_file] writes no
    [Companies] part file outside [companies_seed_part1.sql] ..
    [companies_seed_part19.sql] and no [Questions] part file outside
    [questions_seed_part1.sql] .. [questions_seed_part63.sql]: every other
    part name keeps the contents it had before the run. *)
Theorem process_file_part_count files out :
  process_file files = inr out ->
  (forall j, ~ (1 <= j <= 19)%Z ->
     out !! part_filename ‹"companies_seed"› j = files !! part_filename ‹"companies_seed"› j) /\
  (forall j, ~ (1 <= j <= 63)%Z ->
     out !! part_filename ‹"questions_seed"› j = files !! part_filename ‹"questions_seed"› j).
Proof.
  intros Hrun. destruct (files !! input_file) as [text|] eqn:Hin;
    [|unfold process_file in Hrun; rewrite Hin in Hrun; discriminate].
  rewrite (process_file_run files text Hin) in Hrun. apply inr_eq_inv in Hrun. subst out.
  destruct (part_counts (readlines text)) as [Hc Hq]. split; intros j Hj.
  - rewrite write_parts_other by (intros; apply companies_not_questions).
    apply (write_parts_beyond _ _ _ _ _ 19 Hc). clear -Hj. lia.
  - rewrite (write_parts_beyond _ _ _ _ _ 63 Hq) by (clear -Hj; lia).
    apply write_parts_other. intros j' _ Heq. by apply (companies_not_questions (1 + Z.of_nat j') j).
Qed.

(** ** Witnesses *)

Definition sample_files : gmap pystr pystr :=
  {[input_file := ‹"-- dump"› ++ [LF] ++ ‹"INSERT INTO `companies` VALUES"› ++ [LF]]}.

Lemma process_file_spec_witness :
  sample_files !! input_file = Some (‹"-- dump"› ++ [LF] ++ ‹"INSERT INTO `companies` VALUES"› ++ [LF]) /\
  exists out, process_file sample_files = inr out.
Proof.
  assert (H : sample_files !! input_file =
                Some (‹"-- dump"› ++ [LF] ++ ‹"INSERT INTO `companies` VALUES"› ++ [LF]))
    by reflexivity.
  split; [exact H|].
  destruct (process_file_spec _ _ H) as (out & Hrun & _). by exists out.
Defined.

Lemma process_file_part_count_witness :
  exists out, process_file sample_files = inr out /\
    (forall j, ~ (1 <= j <= 19)%Z ->
       out !! part_filename ‹"companies_seed"› j = sample_files !! part_filename ‹"companies_seed"› j) /\
    (forall j, ~ (1 <= j <= 63)%Z ->
       out !! part_filename ‹"questions_seed"› j = sample_files !! part_filename ‹"questions_seed"› j).
Proof.
  assert (H : sample_files !! input_file =
                Some (‹"-- dump"› ++ [LF] ++ ‹"INSERT INTO `companies` VALUES"› ++ [LF]))
    by reflexivity.
  pose proof (process_file_run _ _ H) as Hrun.
  eexists. split; [exact Hrun|]. exact (process_file_part_count _ _ Hrun).
Defined.
