(* ===== verification/Main.v ===== *)
(** * The program on the byte-level world

    [process_file], [process_table] and [write_batch] with their effects:
    the dump is read with [read_lines] (UTF-8, [errors='ignore'],
    [readlines]), every part file is opened with [open_write] and
    written by three [fwrite] calls, and an exception (a missing dump, a
    part file that cannot be opened, an encoding error) stops the run
    with the files written so far left on disk.  The loop of lines 52-81
    keeps [current_batch] and [part] as its value; the files are in the
    world.  [main] is the [__main__] guard of lines 94-95.

    The theorems relate this model to the text-level one of [Batch] and
    [Program]: the loop writes the parts [write_parts_io] lists, the
    monadic twin of [write_parts] ([run_batches_io_refines]); on a POSIX
    system with a UTF-8 locale and writable part files the run succeeds
    and leaves exactly the files of [Program.process_tables], encoded
    ([process_file_io_refines]); a part file that cannot be opened stops
    the run with the earlier parts written ([process_file_io_permission]);
    a locale that cannot encode the rows stops it with a part file
    truncated to its header ([write_batch_io_encode_error]). *)

From S2P Require Import Prelude Scan Utf8 PyIO PyStr PySlice PyInt PyRe Row Batch Program.

Section Effects.
Context (plat : platform).

(** Lines 86-92 *)
Definition write_batch_io (prefix : pystr) (part : Z) (header : pystr) (rows : list pystr) :
    io unit :=
  let filename := part_filename prefix part in
  f ← open_write filename;
  fwrite plat f header;;
  fwrite plat f (join (‹","› ++ [LF]) rows);;
  fwrite plat f (‹";"› ++ [LF]).

(** Lines 52-81: one iteration on [(current_batch, part)]. *)
Definition loop_body_io (batch_size : Z) (table_name output_prefix insert_header : pystr)
    (st : list pystr * Z) (line : pystr) : io (list pystr * Z) :=
  let '(current_batch, part) := st in
  match transform_row table_name line with
  | None => mret (current_batch, part)
  | Some row =>
      let current_batch := current_batch ++ [row] in
      if (batch_size <=? Z.of_nat (length current_batch))%Z then
        write_batch_io output_prefix part insert_header current_batch;;
        mret ([], (part + 1)%Z)
      else mret (current_batch, part)
  end.

(** Line 52: [for i, line in enumerate(data_lines)] *)
Fixpoint loop_io (batch_size : Z) (table_name output_prefix insert_header : pystr)
    (data_lines : list pystr) (st : list pystr * Z) : io (list pystr * Z) :=
  match data_lines with
  | [] => mret st
  | line :: rest =>
      st' ← loop_body_io batch_size table_name output_prefix insert_header st line;
      loop_io batch_size table_name output_prefix insert_header rest st'
  end.

(** Lines 83-84 *)
Definition flush_io (output_prefix insert_header : pystr) (st : list pystr * Z) : io unit :=
  let '(current_batch, part) := st in
  if decide (current_batch = []) then mret ()
  else write_batch_io output_prefix part insert_header current_batch.

(** Lines 44-84, from [current_batch = []] and [part = 1]. *)
Definition run_batches_io (batch_size : Z) (table_name output_prefix insert_header : pystr)
    (data_lines : list pystr) : io unit :=
  st ← loop_io batch_size table_name output_prefix insert_header data_lines ([], 1%Z);
  flush_io output_prefix insert_header st.

(** Lines 28-84 *)
Definition process_table_io (lines : list pystr) (start_line end_line : Z)
    (table_name table_quoted : pystr) (columns : list pystr) (output_prefix : pystr) :
    io unit :=
  let insert_line_idx := (start_line - 1)%Z in
  let data_lines := py_slice lines (Some (insert_line_idx + 1)%Z) (Some end_line) in
  let batch_size := 50%Z in
  run_batches_io batch_size table_name output_prefix (make_insert_header table_quoted columns)
    data_lines.

(** Lines 4-26 *)
Definition process_file_io : io unit :=
  lines ← read_lines input_file;
  process_table_io lines 769 1713 ‹"Companies"› (dq "Companies") companies_columns
    ‹"companies_seed"›;;
  process_table_io lines 31569 34690 ‹"Questions"› (dq "Questions") questions_cols
    ‹"questions_seed"›.

(** Lines 94-95: the program runs only as a script. *)
Definition main (module_name : pystr) : io unit :=
  if decide (module_name = ‹"__main__"›) then process_file_io else mret ().

(** ** The specification: the parts written one after the other *)

Fixpoint write_parts_io (output_prefix insert_header : pystr) (part : Z)
    (batches : list (list pystr)) : io unit :=
  match batches with
  | [] => mret ()
  | b :: bs => write_batch_io output_prefix part insert_header b;;
               write_parts_io output_prefix insert_header (part + 1) bs
  end.

End Effects.

(** ** The loop writes the chunks of the transformed rows *)

Lemma io_bind_unit (m : io unit) : (m;; mret ()) ≡ m.
Proof. intros w. unfold mbind, io_bind. by destruct (m w) as [[e|[]] w']. Qed.

Section Refinement.
Context (plat : platform) (batch_size : Z) (table_name output_prefix insert_header : pystr).

#[local] Abbreviation k := (batch_pred batch_size).
#[local] Abbreviation loop := (loop_io plat batch_size table_name output_prefix insert_header).
#[local] Abbreviation flush := (flush_io plat output_prefix insert_header).

Lemma loop_flush_io lines cb p :
  length cb <= k ->
  (st ← loop lines (cb, p); flush st) ≡
  write_parts_io plat output_prefix insert_header p
    (chunks k (cb ++ omap (transform_row table_name) lines)).
Proof.
  unfold batch_pred. revert cb p.
  induction lines as [|line lines IH]; intros cb p Hcb; cbn [loop_io].
  - rewrite io_bind_ret_l, app_nil_r. unfold flush_io. case_decide as Hnil.
    + subst. by rewrite chunks_nil.
    + rewrite chunks_small by (done || lia). cbn [write_parts_io].
      symmetry. apply io_bind_unit.
  - rewrite io_bind_assoc. unfold loop_body_io at 1.
    set (rows := omap (transform_row table_name) lines).
    destruct (transform_row table_name line) as [row|] eqn:Ht.
    + assert (Hom : omap (transform_row table_name) (line :: lines) = [row] ++ rows)
        by (simpl; by rewrite Ht).
      rewrite Hom, app_assoc.
      destruct (Z.leb_spec batch_size (Z.of_nat (length (cb ++ [row])))) as [Hb|Hb];
        rewrite length_app in Hb; simpl in Hb.
      * rewrite (chunks_full _ (cb ++ [row])) by (rewrite ?length_app; simpl; lia).
        cbn [write_parts_io]. rewrite io_bind_assoc.
        apply io_bind_proper; [|reflexivity]. intros [].
        rewrite io_bind_ret_l. apply IH. simpl. lia.
      * rewrite io_bind_ret_l. apply IH. rewrite length_app. simpl. lia.
    + assert (Hom : omap (transform_row table_name) (line :: lines) = rows)
        by (simpl; by rewrite Ht).
      rewrite io_bind_ret_l, Hom. by apply IH.
Qed.

(** C23: The loop of lines 45-84 with its writes refines the
    specification: it runs [write_batch] on the chunks of
    [max 1 batch_size] transformed rows, numbered from 1, in order, and
    nothing else; this holds on every world, whatever the writes raise. *)
Theorem run_batches_io_refines lines :
  run_batches_io plat batch_size table_name output_prefix insert_header lines ≡
  write_parts_io plat output_prefix insert_header 1
    (chunks (batch_pred batch_size) (omap (transform_row table_name) lines)).
Proof. apply (loop_flush_io lines [] 1). simpl. lia. Qed.

End Refinement.

(** ** A POSIX system with a UTF-8 locale *)

(** The bytes a text of scalar values is written as. *)
Definition utf8_bytes (s : pystr) : list Byte.byte := bytes_of (default [] (utf8_encode s)).

Definition encode_files (files : gmap pystr pystr) : gmap pystr (list Byte.byte) :=
  utf8_bytes <$> files.

Abbreviation scalar_str s := (Forall (fun c => is_scalar c = true) s).

Lemma utf8_bytes_app a b :
  scalar_str a -> scalar_str b -> utf8_bytes (a ++ b) = utf8_bytes a ++ utf8_bytes b.
Proof.
  intros Ha Hb. destruct (utf8_encode_decode_app a Ha) as (ea & Hea & _).
  destruct (utf8_encode_decode_app b Hb) as (eb & Heb & _).
  unfold utf8_bytes. rewrite (utf8_encode_app a b ea eb), Hea, Heb by done.
  apply map_app.
Qed.

Lemma fwrite_utf8 f s w :
  scalar_str s ->
  fwrite posix_utf8 f s w =
    (inr (), {| fs := <[file_name f := default [] (fs w !! file_name f) ++ utf8_bytes s]> (fs w);
                readonly := readonly w |}).
Proof.
  intros Hs. unfold fwrite. cbn [os_linesep locale_encode posix_utf8].
  rewrite translate_write_LF. destruct (utf8_encode_decode_app s Hs) as (e & He & _).
  unfold utf8_bytes. by rewrite He.
Qed.

Lemma scalar_sep : scalar_str (‹","› ++ [LF]).
Proof. decide_closed. Qed.
Lemma scalar_end : scalar_str (‹";"› ++ [LF]).
Proof. decide_closed. Qed.

Lemma write_batch_io_utf8 prefix part header rows w :
  part_filename prefix part ∉ readonly w -> scalar_str header -> Forall (fun r => scalar_str r) rows ->
  write_batch_io posix_utf8 prefix part header rows w =
    (inr (), {| fs := <[part_filename prefix part := utf8_bytes (batch_contents header rows)]> (fs w);
                readonly := readonly w |}).
Proof.
  intros Hro Hh Hrows. assert (Hj := join_Forall _ _ _ scalar_sep Hrows).
  set (n := part_filename prefix part).
  assert (Hopen : open_write n w =
    (inr {| file_name := n |}, {| fs := <[n := []]> (fs w); readonly := readonly w |})).
  { unfold open_write. by rewrite decide_False. }
  unfold write_batch_io. fold n. rewrite (io_bind_run _ _ _ _ _ Hopen).
  rewrite (io_bind_run _ _ _ _ _ (fwrite_utf8 _ _ _ Hh)).
  rewrite (io_bind_run _ _ _ _ _ (fwrite_utf8 _ _ _ Hj)).
  rewrite fwrite_utf8 by apply scalar_end. cbn [fs readonly file_name].
  rewrite !lookup_insert_eq, !insert_insert_eq. cbn [default]. unfold id. rewrite app_nil_l.
  unfold batch_contents. rewrite <-!app_assoc.
  rewrite (utf8_bytes_app header), (utf8_bytes_app (join _ _)); [done|done|apply scalar_end|done|].
  by apply Forall_app_2; [|apply scalar_end].
Qed.

Lemma write_batch_io_readonly plat prefix part header rows w :
  part_filename prefix part ∈ readonly w ->
  write_batch_io plat prefix part header rows w = (inl (PermissionError (part_filename prefix part)), w).
Proof. intros Hro. unfold write_batch_io, mbind, io_bind, open_write. by rewrite decide_True. Qed.

Lemma encode_files_insert files name s F :
  <[name := utf8_bytes s]> (encode_files files ∪ F) = encode_files (<[name := s]> files) ∪ F.
Proof. unfold encode_files. by rewrite fmap_insert, insert_union_l. Qed.

Lemma world_eta w : w = {| fs := fs w; readonly := readonly w |}.
Proof. by destruct w. Qed.

(** With every part file writable, the parts are written, encoded, over
    the files already there. *)
Lemma write_parts_io_utf8 prefix header p bs files F w :
  fs w = encode_files files ∪ F ->
  (forall j, j < length bs -> part_filename prefix (p + Z.of_nat j) ∉ readonly w) ->
  scalar_str header -> Forall (Forall (fun r => scalar_str r)) bs ->
  write_parts_io posix_utf8 prefix header p bs w =
    (inr (), {| fs := encode_files (write_parts prefix header p bs files) ∪ F;
                readonly := readonly w |}).
Proof.
  revert p files w. induction bs as [|b bs IH]; intros p files w Hfs Hro Hh Hbs.
  - cbn [write_parts_io write_parts]. unfold mret, io_ret. by rewrite <-Hfs, <-world_eta.
  - apply Forall_cons in Hbs as [Hb Hbs]. cbn [write_parts_io write_parts].
    assert (Hro0 : part_filename prefix p ∉ readonly w).
    { rewrite <-(Z.add_0_r p). apply (Hro 0). simpl. lia. }
    rewrite (io_bind_run _ _ _ _ _ (write_batch_io_utf8 _ _ _ _ _ Hro0 Hh Hb)).
    erewrite IH; [reflexivity| | |done|done]; cbn [fs readonly].
    + rewrite Hfs. apply encode_files_insert.
    + intros j Hj.
      replace (p + 1 + Z.of_nat j)%Z with (p + Z.of_nat (S j))%Z by lia. apply Hro. simpl. lia.
Qed.

(** The first part file that cannot be opened stops the writes with
    [PermissionError]; the parts before it stay written. *)
Lemma write_parts_io_readonly prefix header p bs files F w j :
  fs w = encode_files files ∪ F -> j < length bs ->
  (forall i, i < j -> part_filename prefix (p + Z.of_nat i) ∉ readonly w) ->
  part_filename prefix (p + Z.of_nat j) ∈ readonly w ->
  scalar_str header -> Forall (Forall (fun r => scalar_str r)) bs ->
  write_parts_io posix_utf8 prefix header p bs w =
    (inl (PermissionError (part_filename prefix (p + Z.of_nat j))),
     {| fs := encode_files (write_parts prefix header p (take j bs) files) ∪ F;
        readonly := readonly w |}).
Proof.
  revert p files w j. induction bs as [|b bs IH]; intros p files w j Hfs Hj Hbefore Hro Hh Hbs;
    [simpl in Hj; lia|].
  apply Forall_cons in Hbs as [Hb Hbs]. cbn [write_parts_io].
  destruct j as [|j].
  - rewrite Z.add_0_r in *. cbn [take write_parts].
    rewrite (io_bind_run_err _ _ _ _ _ (write_batch_io_readonly _ _ _ _ _ _ Hro)).
    by rewrite <-Hfs, <-world_eta.
  - assert (Hro0 : part_filename prefix p ∉ readonly w).
    { rewrite <-(Z.add_0_r p). apply (Hbefore 0). lia. }
    rewrite (io_bind_run _ _ _ _ _ (write_batch_io_utf8 _ _ _ _ _ Hro0 Hh Hb)).
    cbn [take write_parts].
    replace (p + Z.of_nat (S j))%Z with (p + 1 + Z.of_nat j)%Z by lia.
    erewrite IH; [reflexivity| |simpl in Hj; lia| | |done|done]; cbn [fs readonly].
    + rewrite Hfs. apply encode_files_insert.
    + intros i Hi.
      replace (p + 1 + Z.of_nat i)%Z with (p + Z.of_nat (S i))%Z by lia. apply Hbefore. lia.
    + by replace (p + 1 + Z.of_nat j)%Z with (p + Z.of_nat (S j))%Z by lia.
Qed.

(** ** The whole run *)

(** The batches [process_table] cuts from [lines]. *)
Definition table_batches (lines : list pystr) (start_line end_line : Z) (table_name : pystr) :
    list (list pystr) :=
  chunks (batch_pred 50) (omap (transform_row table_name)
    (py_slice lines (Some (start_line - 1 + 1)%Z) (Some end_line))).

Lemma process_table_io_parts plat lines start_line end_line table_name table_quoted columns
    prefix :
  process_table_io plat lines start_line end_line table_name table_quoted columns prefix ≡
  write_parts_io plat prefix (make_insert_header table_quoted columns) 1
    (table_batches lines start_line end_line table_name).
Proof. apply (loop_flush_io _ _ _ _ _ _ [] 1). simpl. lia. Qed.

Lemma process_table_parts lines start_line end_line table_name table_quoted columns prefix files :
  process_table lines start_line end_line table_name table_quoted columns prefix files =
  write_parts prefix (make_insert_header table_quoted columns) 1
    (table_batches lines start_line end_line table_name) files.
Proof. apply run_batches_chunks. Qed.

Lemma omap_Forall {A B} (P : A -> Prop) (Q : B -> Prop) (f : A -> option B) l :
  (forall x y, P x -> f x = Some y -> Q y) -> Forall P l -> Forall Q (omap f l).
Proof.
  intros Hf. induction 1 as [|x l Hx _ IH]; [constructor|]. simpl.
  destruct (f x) eqn:E; [constructor|]; eauto.
Qed.

Lemma table_batches_scalar lines start_line end_line table_name :
  Forall (fun l => scalar_str l) lines ->
  Forall (Forall (fun r => scalar_str r)) (table_batches lines start_line end_line table_name).
Proof.
  intros Hl. apply chunks_Forall.
  apply (omap_Forall (fun l => scalar_str l)); [|by apply py_slice_Forall].
  intros x y Hx Hy. apply (transform_row_Forall _ table_name x); [decide_closed..|done|done].
Qed.

Lemma read_lines_scalar w bs :
  fs w !! input_file = Some bs ->
  read_lines input_file w = (inr (readlines (decode_ignore bs)), w) /\
  Forall (fun l => scalar_str l) (readlines (decode_ignore bs)).
Proof.
  intros Hin. split.
  - unfold read_lines, mbind, io_bind, open_read. by rewrite Hin.
  - apply readlines_Forall; [reflexivity|apply utf8_decode_all_scalar].
Qed.

Lemma encode_files_empty F : F = encode_files ∅ ∪ F.
Proof. unfold encode_files. by rewrite fmap_empty, map_empty_union. Qed.

Lemma companies_header_scalar : scalar_str (make_insert_header (dq "Companies") companies_columns).
Proof. decide_closed. Qed.
Lemma questions_header_scalar : scalar_str (make_insert_header (dq "Questions") questions_cols).
Proof. decide_closed. Qed.

#[local] Abbreviation companies_parts lines := (table_batches lines 769 1713 ‹"Companies"›).
#[local] Abbreviation questions_parts lines := (table_batches lines 31569 34690 ‹"Questions"›).
#[local] Abbreviation companies_header := (make_insert_header (dq "Companies") companies_columns).
#[local] Abbreviation questions_header := (make_insert_header (dq "Questions") questions_cols).

(** The run after the [Companies] table, on the world it leaves: all of
    its parts written, the [Questions] parts still to write. *)
Lemma process_file_io_companies w bs :
  fs w !! input_file = Some bs ->
  (forall j, part_filename ‹"companies_seed"› j ∉ readonly w) ->
  let lines := readlines (decode_ignore bs) in
  process_file_io posix_utf8 w =
    write_parts_io posix_utf8 ‹"questions_seed"› questions_header 1 (questions_parts lines)
      {| fs := encode_files (process_table lines 769 1713 ‹"Companies"› (dq "Companies")
                               companies_columns ‹"companies_seed"› ∅) ∪ fs w;
         readonly := readonly w |}.
Proof.
  intros Hin Hc lines. destruct (read_lines_scalar w bs Hin) as [Hread Hl].
  unfold process_file_io. rewrite (io_bind_run _ _ _ _ _ Hread).
  rewrite process_table_parts. fold lines in Hl.
  assert (H1 : process_table_io posix_utf8 lines 769 1713 ‹"Companies"› (dq "Companies")
      companies_columns ‹"companies_seed"› w =
    (inr (), {| fs := encode_files (write_parts ‹"companies_seed"› companies_header 1
                        (companies_parts lines) ∅) ∪ fs w; readonly := readonly w |})).
  { etransitivity; [apply process_table_io_parts|].
    apply write_parts_io_utf8; [apply encode_files_empty|intros; apply Hc|
      apply companies_header_scalar|by apply table_batches_scalar]. }
  rewrite (io_bind_run _ _ _ _ _ H1). apply process_table_io_parts.
Qed.

(** C24: On a POSIX system with a UTF-8 locale, when the dump exists and
    no part file is read-only, the program raises nothing and leaves the
    files of the text-level model [process_tables] of the decoded dump,
    encoded in UTF-8, over the files that were there: the byte-level
    program refines the text-level one. *)
Theorem process_file_io_refines w bs :
  fs w !! input_file = Some bs ->
  (forall j, part_filename ‹"companies_seed"› j ∉ readonly w) ->
  (forall j, part_filename ‹"questions_seed"› j ∉ readonly w) ->
  process_file_io posix_utf8 w =
    (inr (), {| fs := encode_files (process_tables (readlines (decode_ignore bs)) ∅) ∪ fs w;
                readonly := readonly w |}).
Proof.
  intros Hin Hc Hq. rewrite (process_file_io_companies w bs Hin Hc).
  destruct (read_lines_scalar w bs Hin) as [_ Hl].
  rewrite write_parts_io_utf8 with (files := process_table (readlines (decode_ignore bs)) 769 1713 ‹"Companies"› (dq "Companies")
    companies_columns ‹"companies_seed"› ∅) (F := fs w); [|reflexivity|intros; apply Hq|
    apply questions_header_scalar|by apply table_batches_scalar].
  unfold process_tables. by rewrite (process_table_parts _ 31569).
Qed.

(** C25: A [Questions] part file that cannot be opened for writing stops
    the program with [PermissionError] on its name, and the run is not
    undone: every [Companies] part and the [Questions] parts before it
    stay written. *)
Theorem process_file_io_permission w bs j :
  fs w !! input_file = Some bs ->
  (forall i, part_filename ‹"companies_seed"› i ∉ readonly w) ->
  j < length (questions_parts (readlines (decode_ignore bs))) ->
  (forall i, i < j -> part_filename ‹"questions_seed"› (1 + Z.of_nat i) ∉ readonly w) ->
  part_filename ‹"questions_seed"› (1 + Z.of_nat j) ∈ readonly w ->
  process_file_io posix_utf8 w =
    (inl (PermissionError (part_filename ‹"questions_seed"› (1 + Z.of_nat j))),
     {| fs := encode_files
                (write_parts ‹"questions_seed"› questions_header 1
                   (take j (questions_parts (readlines (decode_ignore bs))))
                   (process_table (readlines (decode_ignore bs)) 769 1713 ‹"Companies"›
                      (dq "Companies") companies_columns ‹"companies_seed"› ∅)) ∪ fs w;
        readonly := readonly w |}).
Proof.
  intros Hin Hc Hj Hbefore Hro. rewrite (process_file_io_companies w bs Hin Hc).
  destruct (read_lines_scalar w bs Hin) as [_ Hl].
  by rewrite write_parts_io_readonly with (files := process_table (readlines (decode_ignore bs)) 769 1713 ‹"Companies"› (dq "Companies")
    companies_columns ‹"companies_seed"› ∅) (F := fs w) (j := j);
    [|reflexivity|done|done|done|apply questions_header_scalar|apply table_batches_scalar].
Qed.

(** Without the dump, nothing is written. *)
Lemma process_file_io_missing plat w :
  fs w !! input_file = None ->
  process_file_io plat w = (inl (FileNotFoundError input_file), w).
Proof. intros Hin. unfold process_file_io, read_lines, mbind, io_bind, open_read. by rewrite Hin. Qed.

(** Imported as a module, the program does nothing; run as a script, it
    runs [process_file]. *)
Lemma main_imported plat module_name :
  module_name <> ‹"__main__"› -> main plat module_name ≡ mret ().
Proof. intros Hn. unfold main. by rewrite decide_False. Qed.

Lemma main_script plat : main plat ‹"__main__"› ≡ process_file_io plat.
Proof. unfold main. by rewrite decide_True. Qed.

(** C26: Line 88 opens each part file without an encoding, so the
    locale's encoding applies.  When it encodes the header but not the
    joined rows, the second [f.write] raises [UnicodeEncodeError] after
    the first one: the part file is left truncated to its header. *)
Theorem write_batch_io_encode_error plat prefix part header rows w eh :
  part_filename prefix part ∉ readonly w ->
  locale_encode plat (translate_write (os_linesep plat) header) = Some eh ->
  locale_encode plat (translate_write (os_linesep plat) (join (‹","› ++ [LF]) rows)) = None ->
  write_batch_io plat prefix part header rows w =
    (inl UnicodeEncodeError,
     {| fs := <[part_filename prefix part := bytes_of eh]> (fs w); readonly := readonly w |}).
Proof.
  intros Hro Hh Hrows. unfold write_batch_io, mbind, io_bind, open_write.
  rewrite decide_False by done. unfold fwrite. cbn [file_name fs readonly].
  rewrite Hh. cbn [fs readonly]. rewrite Hrows, lookup_insert_eq, insert_insert_eq. done.
Qed.

(** ** Witnesses *)

(** A dump of 31570 lines [x]: 944 [Companies] rows and one [Questions] row. *)
Definition sample_dump : list Byte.byte := bytes_of (concat (repeat [0x78%N; LF] 31570)).

Definition sample_world (ro : gset pystr) : world :=
  {| fs := {[input_file := sample_dump]}; readonly := ro |}.

Lemma process_file_io_refines_witness :
  fs (sample_world ∅) !! input_file = Some sample_dump /\
  process_file_io posix_utf8 (sample_world ∅) =
    (inr (), {| fs := encode_files (process_tables (readlines (decode_ignore sample_dump)) ∅)
                        ∪ fs (sample_world ∅);
                readonly := ∅ |}).
Proof.
  assert (Hin : fs (sample_world ∅) !! input_file = Some sample_dump) by reflexivity.
  split; [exact Hin|].
  exact (process_file_io_refines _ _ Hin (fun j => not_elem_of_empty _)
           (fun j => not_elem_of_empty _)).
Defined.

Lemma process_file_io_permission_witness :
  let w := sample_world {[part_filename ‹"questions_seed"› 1]} in
  fs w !! input_file = Some sample_dump /\
  (forall i, part_filename ‹"companies_seed"› i ∉ readonly w) /\
  0 < length (questions_parts (readlines (decode_ignore sample_dump))) /\
  part_filename ‹"questions_seed"› (1 + Z.of_nat 0) ∈ readonly w /\
  process_file_io posix_utf8 w =
    (inl (PermissionError (part_filename ‹"questions_seed"› (1 + Z.of_nat 0))),
     {| fs := encode_files
                (write_parts ‹"questions_seed"› questions_header 1
                   (take 0 (questions_parts (readlines (decode_ignore sample_dump))))
                   (process_table (readlines (decode_ignore sample_dump)) 769 1713 ‹"Companies"›
                      (dq "Companies") companies_columns ‹"companies_seed"› ∅)) ∪ fs w;
        readonly := readonly w |}).
Proof.
  intros w.
  assert (Hin : fs w !! input_file = Some sample_dump) by reflexivity.
  assert (Hc : forall i, part_filename ‹"companies_seed"› i ∉ readonly w).
  { intros i. cbn [readonly w sample_world]. rewrite elem_of_singleton.
    apply companies_not_questions. }
  assert (Hj : 0 < length (questions_parts (readlines (decode_ignore sample_dump))))
    by (vm_compute; lia).
  assert (Hro : part_filename ‹"questions_seed"› (1 + Z.of_nat 0) ∈ readonly w)
    by (cbn [readonly w sample_world]; by apply elem_of_singleton).
  split; [exact Hin|split; [exact Hc|split; [exact Hj|split; [exact Hro|]]]].
  exact (process_file_io_permission w sample_dump 0 Hin Hc Hj (fun i Hi => False_rect _ (Nat.nlt_0_r i Hi)) Hro).
Defined.

Lemma write_batch_io_encode_error_witness :
  let w := {| fs := ∅; readonly := ∅ |} in
  part_filename ‹"questions_seed"› 1 ∉ readonly w /\
  locale_encode latin1_platform (translate_write (os_linesep latin1_platform)
    (make_insert_header (dq "Questions") questions_cols)) =
    Some (make_insert_header (dq "Questions") questions_cols) /\
  locale_encode latin1_platform (translate_write (os_linesep latin1_platform)
    (join (‹","› ++ [LF]) [‹"(1, 'a "› ++ [0x2192%N] ++ ‹" b', true, 'x')"›])) = None /\
  write_batch_io latin1_platform ‹"questions_seed"› 1
    (make_insert_header (dq "Questions") questions_cols)
    [‹"(1, 'a "› ++ [0x2192%N] ++ ‹" b', true, 'x')"›] w =
  (inl UnicodeEncodeError,
   {| fs := <[part_filename ‹"questions_seed"› 1 :=
              bytes_of (make_insert_header (dq "Questions") questions_cols)]> (fs w);
      readonly := readonly w |}).
Proof.
  intros w.
  assert (H1 : part_filename ‹"questions_seed"› 1 ∉ readonly w) by apply not_elem_of_empty.
  assert (H2 : locale_encode latin1_platform (translate_write (os_linesep latin1_platform)
    (make_insert_header (dq "Questions") questions_cols)) =
    Some (make_insert_header (dq "Questions") questions_cols)) by (vm_compute; reflexivity).
  assert (H3 : locale_encode latin1_platform (translate_write (os_linesep latin1_platform)
    (join (‹","› ++ [LF]) [‹"(1, 'a "› ++ [0x2192%N] ++ ‹" b', true, 'x')"›])) = None)
    by (vm_compute; reflexivity).
  split; [exact H1|split; [exact H2|split; [exact H3|]]].
  exact (write_batch_io_encode_error _ _ _ _ _ _ _ H1 H2 H3).
Defined.
